(** * Sequence date repair of [fix_dates.py]

    A shallow embedding of the date-repair script: [is_valid_year],
    [parse_date], [format_date], [process_csv] and the driver [main],
    followed by the properties of the repair engine and of the driver.

    Conventions of the embedding.
    - A text is held as the [string] of the bytes of its UTF-8 encoding.
      The bytes of a multi-byte character never coincide with a comma or a
      line terminator, so reading lines, splitting and joining work on the
      bytes as on the characters.  Where the script looks at characters
      ([len], the regular expression and [int] in [parse_date]) the bytes
      are decoded to code points; the class [\d] is the decimal digits of
      Unicode.
    - Python integers are unbounded: years, months and days are [Z].
      List indices are [nat].
    - The file named by [filepath] is the only state of [process_csv]: it
      takes the content and returns the count together with the text
      written back, if any.  The state of [main] is the files under
      [BASE_DIR], the text printed and its counters. *)

From Stdlib Require Import ZArith Lia Ascii DecimalString.
From stdpp Require Import strings list gmap sorting.

Local Open Scope Z_scope.
Local Arguments String.append !_ _ / : simpl nomatch.

(** ** Characters and small string helpers *)

Definition LF : ascii := ascii_of_nat 10.
Definition CR : ascii := ascii_of_nat 13.
Definition COMMA : ascii := ","%char.
Definition DASH : ascii := "-"%char.

Definition ascii_eqb (a b : ascii) : bool := Ascii.eqb a b.

(** [c in s] for a character. *)
Fixpoint contains (c : ascii) (s : string) : bool :=
  match s with
  | EmptyString => false
  | String a rest => ascii_eqb a c || contains c rest
  end.

Fixpoint string_rep (n : nat) (c : ascii) : string :=
  match n with
  | O => EmptyString
  | S k => String c (string_rep k c)
  end.

(** ** [is_valid_year] (lines 19-21) *)

Definition is_valid_year (year_int : Z) : bool :=
  (1800 <=? year_int) && (year_int <=? 2100).

(** ** Text and decimal digits *)

Definition byte (c : ascii) : N := N_of_ascii c.

Definition continuation (c : ascii) : bool :=
  (128 <=? byte c)%N && (byte c <=? 191)%N.

(** The code points of a text from its UTF-8 encoding, as the strict
    decoder of [open(..., encoding='utf-8')] reads them: no overlong form,
    no surrogate, nothing above U+10FFFF.  [None] when the bytes are not the
    encoding of a text. *)
Fixpoint decode_utf8 (s : string) : option (list N) :=
  match s with
  | EmptyString => Some []
  | String b0 rest =>
      let lead := byte b0 in
      if (lead <? 128)%N then cons lead <$> decode_utf8 rest
      else if (lead <? 224)%N then
        match rest with
        | String b1 rest' =>
            let c := ((lead - 192) * 64 + (byte b1 - 128))%N in
            if (192 <=? lead)%N && continuation b1 && (128 <=? c)%N
            then cons c <$> decode_utf8 rest'
            else None
        | EmptyString => None
        end
      else if (lead <? 240)%N then
        match rest with
        | String b1 (String b2 rest') =>
            let c := ((lead - 224) * 4096 + (byte b1 - 128) * 64
                      + (byte b2 - 128))%N in
            if continuation b1 && continuation b2 && (2048 <=? c)%N
               && negb ((55296 <=? c)%N && (c <=? 57343)%N)
            then cons c <$> decode_utf8 rest'
            else None
        | _ => None
        end
      else
        match rest with
        | String b1 (String b2 (String b3 rest')) =>
            let c := ((lead - 240) * 262144 + (byte b1 - 128) * 4096
                      + (byte b2 - 128) * 64 + (byte b3 - 128))%N in
            if (lead <? 248)%N && continuation b1 && continuation b2
               && continuation b3 && (65536 <=? c)%N && (c <=? 1114111)%N
            then cons c <$> decode_utf8 rest'
            else None
        | _ => None
        end
  end.

(** The digits zero of the decimal digits of Unicode (general category Nd,
    Unicode 14.0.0, the version of the interpreter of the script): the
    class [\d] of [re] on [str] and the digits that [int] reads.  Each is
    followed by its digits one to nine. *)
Definition decimal_zeros : list N :=
  [48; 1632; 1776; 1984; 2406; 2534; 2662; 2790; 2918; 3046; 3174; 3302;
   3430; 3558; 3664; 3792; 3872; 4160; 4240; 6112; 6160; 6470; 6608; 6784;
   6800; 6992; 7088; 7232; 7248; 42528; 43216; 43264; 43472; 43504; 43600;
   44016; 65296; 66720; 68912; 69734; 69872; 69942; 70096; 70384; 70736;
   70864; 71248; 71360; 71472; 71904; 72016; 72784; 73040; 73120; 92768;
   92864; 93008; 120782; 120792; 120802; 120812; 120822; 123200; 123632;
   125264; 130032]%N.

(** The value of a decimal digit. *)
Definition decimal_value (c : N) : option N :=
  match List.find (fun zero => (zero <=? c)%N && (c <? zero + 10)%N)
                  decimal_zeros with
  | Some zero => Some (c - zero)%N
  | None => None
  end.

(** ** [parse_date] (lines 23-30) *)

(** [\d] *)
Definition is_digit (c : N) : bool :=
  match decimal_value c with Some _ => true | None => false end.

Definition digit_value (c : N) : Z :=
  match decimal_value c with Some v => Z.of_N v | None => 0 end.

(** [int(group)] on a run of digits. *)
Definition int_of_digits (ds : list N) : Z :=
  fold_left (fun acc c => 10 * acc + digit_value c) ds 0.

(** [re.match(r'^(\d{4})-(\d{2})-(\d{2})$', s)] on the characters of [s]:
    the three groups, as integers.  [$] also matches just before a newline
    that ends the text. *)
Definition match_date (cs : list N) : option (Z * Z * Z) :=
  let groups y1 y2 y3 y4 h1 m1 m2 h2 d1 d2 :=
    if forallb is_digit [y1; y2; y3; y4; m1; m2; d1; d2]
       && (h1 =? 45)%N && (h2 =? 45)%N
    then Some (int_of_digits [y1; y2; y3; y4],
               int_of_digits [m1; m2],
               int_of_digits [d1; d2])
    else None in
  match cs with
  | [y1; y2; y3; y4; h1; m1; m2; h2; d1; d2] =>
      groups y1 y2 y3 y4 h1 m1 m2 h2 d1 d2
  | [y1; y2; y3; y4; h1; m1; m2; h2; d1; d2; nl] =>
      if (nl =? 10)%N then groups y1 y2 y3 y4 h1 m1 m2 h2 d1 d2 else None
  | _ => None
  end.

(** [len(date_str)] counts characters. *)
Definition parse_date (date_str : string) : option (Z * Z * Z) :=
  match decode_utf8 date_str with
  | Some cs =>
      if Nat.eqb (length cs) 0 || Nat.ltb (length cs) 10
      then None
      else match_date cs
  | None => None
  end.

(** ** [format_date] (lines 32-34) *)

Definition decimal (n : N) : string :=
  NilEmpty.string_of_uint (N.to_uint n).

(** [f"{z:0{width}d}"]: sign-aware zero padding to at least [width]. *)
Definition format_d (width : nat) (z : Z) : string :=
  let ds := decimal (Z.abs_N z) in
  if z <? 0
  then String DASH (string_rep (width - 1 - String.length ds) "0" +:+ ds)
  else string_rep (width - String.length ds) "0" +:+ ds.

Definition format_date (year month day : Z) : string :=
  format_d 4 year +:+ "-" +:+ format_d 2 month +:+ "-" +:+ format_d 2 day.

Example parse_date_ok : parse_date "1970-01-01" = Some (1970, 1, 1).
Proof. reflexivity. Qed.

Example parse_date_bad : parse_date "09A0-01-01" = None.
Proof. reflexivity. Qed.

Example format_date_ok : format_date 1971 1 1 = "1971-01-01".
Proof. reflexivity. Qed.

Example format_d_neg : format_d 4 (-5) = "-005".
Proof. reflexivity. Qed.

(** ** Reading and writing the file (lines 41-42 and 158-161) *)

(** Text mode with the default [newline=None] translates the terminators
    CR LF and CR to LF on input. *)
Fixpoint universal_newlines (s : string) : string :=
  match s with
  | EmptyString => EmptyString
  | String c rest =>
      if ascii_eqb c CR
      then match rest with
           | String c' rest' =>
               if ascii_eqb c' LF
               then String LF (universal_newlines rest')
               else String LF (universal_newlines rest)
           | EmptyString => String LF EmptyString
           end
      else String c (universal_newlines rest)
  end.

(** [for line in f]: the lines of the text, each with its terminator; the
    last one has none when the text does not end in LF. *)
Fixpoint file_iter (s : string) : list string :=
  match s with
  | EmptyString => []
  | String c rest =>
      if ascii_eqb c LF
      then String LF EmptyString :: file_iter rest
      else match file_iter rest with
           | [] => [String c EmptyString]
           | l :: ls => String c l :: ls
           end
  end.

(** [s.rstrip(c)] for a one-character set. *)
Fixpoint rstrip (c : ascii) (s : string) : string :=
  match s with
  | EmptyString => EmptyString
  | String a rest =>
      match rstrip c rest with
      | EmptyString => if ascii_eqb a c then EmptyString else String a EmptyString
      | r => String a r
      end
  end.

(** [[line.rstrip('\n') for line in f]] *)
Definition read_lines (content : string) : list string :=
  map (rstrip LF) (file_iter (universal_newlines content)).

(** [s.split(c)]: always at least one part. *)
Fixpoint split (c : ascii) (s : string) : list string :=
  match s with
  | EmptyString => [EmptyString]
  | String a rest =>
      if ascii_eqb a c
      then EmptyString :: split c rest
      else match split c rest with
           | [] => [String a EmptyString]
           | p :: ps => String a p :: ps
           end
  end.

(** [','.join(parts)] *)
Definition join_comma (parts : list string) : string :=
  String.concat "," parts.

(** ** Records (lines 51-63) *)

Record record : Type := mkRecord {
  original_date : string;
  parsed : option (Z * Z * Z);
  value : string;
  fixed_date : option string
}.

Definition set_fixed_date (rec : record) (d : string) : record :=
  {| original_date := original_date rec;
     parsed := parsed rec;
     value := value rec;
     fixed_date := Some d |}.

Fixpoint parse_records (data_lines : list string) : list record :=
  match data_lines with
  | [] => []
  | line :: rest =>
      match split COMMA line with
      | date_str :: (_ :: _) as tail =>
          {| original_date := date_str;
             parsed := parse_date date_str;
             value := join_comma tail;
             fixed_date := None |} :: parse_records rest
      | _ => parse_records rest
      end
  end.

(** [rec['parsed'] and is_valid_year(rec['parsed'][0])]: the year of the
    record when the test holds. *)
Definition anchor_year (rec : record) : option Z :=
  match parsed rec with
  | Some (year, _, _) => if is_valid_year year then Some year else None
  | None => None
  end.

Definition is_anchor (rec : record) : bool :=
  match anchor_year rec with Some _ => true | None => false end.

(** ** Anchors and direction (lines 65-90) *)

(** A [for j in ...: if <anchor at j>: ...; break] scan over the indices
    [js] in their order: the first index that holds an anchor, with its
    year.  Every scan of the source stays inside the list. *)
Fixpoint first_anchor_in (records : list record) (js : list nat)
  : option (nat * Z) :=
  match js with
  | [] => None
  | j :: rest =>
      match records !! j with
      | Some rec =>
          match anchor_year rec with
          | Some year => Some (j, year)
          | None => first_anchor_in records rest
          end
      | None => first_anchor_in records rest
      end
  end.

(** [range(a, b)] and [range(i - 1, -1, -1)] *)
Definition range (a b : nat) : list nat := seq a (b - a).
Definition range_down (i : nat) : list nat := rev (seq 0 i).

(** lines 79-84 *)
Definition valid_years (records : list record) : list Z :=
  omap anchor_year records.

(** lines 87-90 *)
Definition ascending (records : list record) : bool :=
  let vy := valid_years records in
  if Nat.leb 2 (length vy)
  then List.hd 0 vy <? List.last vy 0
  else true.

(** ** Repair of one row (lines 96-155) *)

(** A distance, or [float('inf')]. *)
Inductive distance : Type :=
  | Finite (d : Z)
  | Infinity.

Definition distance_le (a b : distance) : bool :=
  match a, b with
  | Finite x, Finite y => x <=? y
  | Finite _, Infinity => true
  | Infinity, Finite _ => false
  | Infinity, Infinity => true
  end.

(** lines 102-138 *)
Definition infer_year (records : list record) (asc : bool) (i : nat)
  : option Z :=
  let prev_valid := first_anchor_in records (range_down i) in
  let next_valid := first_anchor_in records (range (i + 1) (length records)) in
  let dist_to_prev :=
    match prev_valid with
    | Some (prev_valid_idx, _) => Finite (Z.of_nat i - Z.of_nat prev_valid_idx)
    | None => Infinity
    end in
  let dist_to_next :=
    match next_valid with
    | Some (next_valid_idx, _) => Finite (Z.of_nat next_valid_idx - Z.of_nat i)
    | None => Infinity
    end in
  let from_prev :=
    match prev_valid with
    | Some (prev_valid_idx, prev_valid_year) =>
        let steps_from_prev := Z.of_nat i - Z.of_nat prev_valid_idx in
        if asc
        then Some (prev_valid_year + steps_from_prev)
        else Some (prev_valid_year - steps_from_prev)
    | None => None
    end in
  match next_valid with
  | Some (next_valid_idx, next_valid_year) =>
      if distance_le dist_to_next dist_to_prev
      then
        let steps_to_next := Z.of_nat next_valid_idx - Z.of_nat i in
        if asc
        then Some (next_valid_year - steps_to_next)
        else Some (next_valid_year + steps_to_next)
      else from_prev
  | None => from_prev
  end.

(** [inferred_year and is_valid_year(inferred_year)] *)
Definition usable_year (inferred_year : option Z) : option Z :=
  match inferred_year with
  | Some y => if negb (y =? 0) && is_valid_year y then Some y else None
  | None => None
  end.

(** lines 142-149 *)
Definition month_day (rec : record) : Z * Z :=
  match parsed rec with
  | Some (_, month, day) =>
      let month := if (1 <=? month) && (month <=? 12) then month else 12 in
      let day := if (1 <=? day) && (day <=? 31) then day else 30 in
      (month, day)
  | None => (12, 30)
  end.

(** The body of the loop at row [i]: the new record and what it adds to
    [fixed_count]. *)
Definition repair_row (records : list record) (asc : bool) (i : nat)
    (rec : record) : record * nat :=
  if is_anchor rec
  then (set_fixed_date rec (original_date rec), 0%nat)
  else
    match usable_year (infer_year records asc i) with
    | Some inferred_year =>
        let '(month, day) := month_day rec in
        (set_fixed_date rec (format_date inferred_year month day), 1%nat)
    | None => (set_fixed_date rec (original_date rec), 0%nat)
    end.

(** One iteration of [for i, rec in enumerate(records)]: the record is
    updated in place in the list that the later iterations scan. *)
Definition repair_step (asc : bool) (st : list record * nat) (i : nat)
  : list record * nat :=
  let '(records, fixed_count) := st in
  match records !! i with
  | Some rec =>
      let '(rec', inc) := repair_row records asc i rec in
      (<[i := rec']> records, (fixed_count + inc)%nat)
  | None => st
  end.

(** The loop run for the first [k] rows. *)
Definition repair_upto (asc : bool) (records : list record) (k : nat)
  : list record * nat :=
  fold_left (repair_step asc) (seq 0 k) (records, 0%nat).

Definition repair_loop (asc : bool) (records : list record)
  : list record * nat :=
  repair_upto asc records (length records).

(** ** Writing back and [process_csv] (lines 36-163) *)

Definition NL : string := String LF EmptyString.

(** [f"{rec['fixed_date']},{rec['value']}"]; a [None] would print as its
    name. *)
Definition row_text (rec : record) : string :=
  match fixed_date rec with
  | Some d => d
  | None => "None"
  end +:+ "," +:+ value rec.

(** The text of a file after a sequence of [f.write] calls. *)
Fixpoint write_all (chunks : list string) : string :=
  match chunks with
  | [] => EmptyString
  | chunk :: rest => chunk +:+ write_all rest
  end.

(** The text written by lines 158-161.  On output LF is written as the
    platform's line separator, which is LF on the platforms of the script. *)
Definition write_csv (header : string) (records : list record) : string :=
  write_all ((header +:+ NL) :: map (fun rec => row_text rec +:+ NL) records).

(** Lines 44-155 on the lines read: the returned count and, when the run
    reaches the write, the header and the records to write. *)
Definition repair_lines (lines : list string)
  : nat * option (string * list record) :=
  if Nat.ltb (length lines) 2 then (0%nat, None)
  else
    match lines with
    | [] => (0%nat, None)
    | header :: data_lines =>
        let records := parse_records data_lines in
        match first_anchor_in records (range 0 (length records)) with
        | None => (0%nat, None)
        | Some _ =>
            let asc := ascending records in
            let '(records', fixed_count) := repair_loop asc records in
            (fixed_count, Some (header, records'))
        end
    end.

(** [process_csv] on the text of the file: the returned count and the text
    written to the file, if the run reaches the write.  Opening the file as
    UTF-8 text is in [read_file] below, which raises for bytes that are not
    the encoding of a text. *)
Definition process_csv (content : string) : nat * option string :=
  let '(fixed_count, out) := repair_lines (read_lines content) in
  (fixed_count,
   match out with
   | Some (header, records) => Some (write_csv header records)
   | None => None
   end).

(** The content of the file after a run. *)
Definition file_after (content : string) : string :=
  match snd (process_csv content) with
  | Some written => written
  | None => content
  end.

(** A text file made of the given lines, each one terminated. *)
Definition lines_text (ls : list string) : string :=
  write_all (map (fun l => l +:+ NL) ls).

(** A date with the Arabic-Indic digit one (U+0661, the bytes 217 and 161)
    is an anchor, as for the interpreter: the row after it is repaired from
    it. *)
Example unicode_digit_run :
  let anchor_row :=
    "197" +:+ String (ascii_of_nat 217) (String (ascii_of_nat 161) "-01-01,1") in
  process_csv (lines_text ["h"; anchor_row; "x,2"])
  = (1%nat, Some (lines_text ["h"; anchor_row; "1972-12-30,2"])).
Proof. vm_compute. reflexivity. Qed.

Example scenario_run :
  process_csv (lines_text ["date,value"; "1970-01-01,10"; "09A0-01-01,11"; "1972-01-01,12"])
  = (1%nat, Some (lines_text ["date,value"; "1970-01-01,10"; "1971-12-30,11"; "1972-01-01,12"])).
Proof. vm_compute. reflexivity. Qed.

(** * Properties *)

(** ** Characters in strings *)

Lemma ascii_eqb_true a b : ascii_eqb a b = true <-> a = b.
Proof. unfold ascii_eqb. apply Ascii.eqb_eq. Qed.

Lemma ascii_eqb_false a b : ascii_eqb a b = false <-> a <> b.
Proof. unfold ascii_eqb. apply Ascii.eqb_neq. Qed.

Lemma ascii_eqb_refl a : ascii_eqb a a = true.
Proof. by apply ascii_eqb_true. Qed.

Lemma contains_app c a b :
  contains c (a +:+ b) = contains c a || contains c b.
Proof.
  induction a as [|x a IH]; simpl; [done|].
  by rewrite IH, orb_assoc.
Qed.

Lemma contains_cons_false c x s :
  contains c (String x s) = false <-> x <> c /\ contains c s = false.
Proof.
  simpl. rewrite orb_false_iff, ascii_eqb_false. tauto.
Qed.

Lemma app_assoc_string (a b c : string) : (a +:+ b) +:+ c = a +:+ (b +:+ c).
Proof. induction a as [|x a IH]; simpl; [done|]. by rewrite IH. Qed.

Lemma app_empty_r (a : string) : a +:+ "" = a.
Proof. induction a as [|x a IH]; simpl; [done|]. by rewrite IH. Qed.

(** ** Reading lines *)

Lemma contains_cons c x s :
  contains c (String x s) = ascii_eqb x c || contains c s.
Proof. reflexivity. Qed.

Lemma universal_newlines_no_CR s : contains CR (universal_newlines s) = false.
Proof.
  remember (String.length s) as n eqn:Hn.
  revert s Hn. induction (lt_wf n) as [n _ IH]. intros s ->.
  destruct s as [|c rest]; [done|].
  assert (Hrest : contains CR (universal_newlines rest) = false).
  { eapply IH; [|done]. simpl. lia. }
  cbn [universal_newlines].
  destruct (ascii_eqb c CR) eqn:Hc.
  - destruct rest as [|c' rest']; [done|].
    destruct (ascii_eqb c' LF).
    + rewrite contains_cons. cbn [orb]. change (ascii_eqb LF CR) with false.
      eapply IH; [|done]. simpl. lia.
    + rewrite contains_cons. by change (ascii_eqb LF CR) with false.
  - rewrite contains_cons, Hc. done.
Qed.

Lemma universal_newlines_id s :
  contains CR s = false -> universal_newlines s = s.
Proof.
  induction s as [|c rest IH]; [done|].
  intros [Hc Hrest]%contains_cons_false. simpl.
  apply ascii_eqb_false in Hc. rewrite Hc. by rewrite IH.
Qed.

Lemma file_iter_line l rest :
  contains LF l = false ->
  file_iter (l +:+ String LF rest) = (l +:+ NL) :: file_iter rest.
Proof.
  unfold NL. induction l as [|c l IH]; intros Hl; simpl.
  - done.
  - apply contains_cons_false in Hl as [Hc Hl].
    apply ascii_eqb_false in Hc. rewrite Hc, IH by done. done.
Qed.

Lemma app_NL l rest : (l +:+ NL) +:+ rest = l +:+ String LF rest.
Proof. by rewrite app_assoc_string. Qed.

Lemma file_iter_lines_text ls :
  Forall (fun l => contains LF l = false) ls ->
  file_iter (lines_text ls) = map (fun l => l +:+ NL) ls.
Proof.
  unfold lines_text. induction 1 as [|l ls Hl _ IH]; [done|].
  cbn [map write_all]. rewrite app_NL.
  rewrite file_iter_line by done. by rewrite IH.
Qed.

Lemma rstrip_id c s : contains c s = false -> rstrip c s = s.
Proof.
  induction s as [|a s IH]; [done|].
  intros [Ha Hs]%contains_cons_false. cbn [rstrip]. rewrite IH by done.
  apply ascii_eqb_false in Ha. rewrite Ha. by destruct s.
Qed.

Lemma rstrip_line c s :
  contains c s = false -> rstrip c (s +:+ String c "") = s.
Proof.
  induction s as [|a s IH].
  - intros _. cbn. by rewrite ascii_eqb_refl.
  - intros [Ha Hs]%contains_cons_false.
    change (String a s +:+ String c "") with (String a (s +:+ String c "")).
    cbn [rstrip]. rewrite IH by done.
    apply ascii_eqb_false in Ha. rewrite Ha. by destruct s.
Qed.

(** A text made of terminated lines without line breaks reads back as
    those lines. *)
Lemma read_lines_lines_text ls :
  Forall (fun l => contains LF l = false /\ contains CR l = false) ls ->
  read_lines (lines_text ls) = ls.
Proof.
  intros Hls. unfold read_lines.
  assert (HCR : contains CR (lines_text ls) = false).
  { unfold lines_text. induction Hls as [|l ls [_ Hl] _ IH]; [done|].
    cbn [map write_all]. rewrite !contains_app, Hl, IH. done. }
  rewrite universal_newlines_id by done.
  rewrite file_iter_lines_text by (eapply Forall_impl; [done|]; by intros ? []).
  rewrite map_map.
  induction Hls as [|l ls [Hl _] _ IH]; [done|].
  cbn [map]. rewrite IH.
  - f_equal. by apply rstrip_line.
  - unfold lines_text in *. cbn [map write_all] in HCR.
    rewrite contains_app in HCR. by apply orb_false_iff in HCR as [_ ?].
Qed.

(** The shape of what the iteration yields: a body free of LF, with or
    without one terminator. *)
Lemma file_iter_shape s :
  Forall (fun l => exists body,
            contains LF body = false /\ (l = body \/ l = body +:+ NL))
         (file_iter s).
Proof.
  induction s as [|c s IH]; [constructor|].
  cbn [file_iter]. destruct (ascii_eqb c LF) eqn:Hc.
  - constructor; [|done]. exists "". split; [done|]. by right.
  - apply ascii_eqb_false in Hc.
    destruct (file_iter s) as [|l ls].
    + constructor; [|done]. exists (String c ""). split; [|by left].
      apply contains_cons_false. done.
    + inversion IH as [|? ? (body & Hb & Hl) Hls]; subst.
      constructor; [|done]. exists (String c body). split.
      * by apply contains_cons_false.
      * destruct Hl as [->| ->]; [by left|by right].
Qed.

Lemma file_iter_chars c s :
  contains c s = false ->
  Forall (fun l => contains c l = false) (file_iter s).
Proof.
  induction s as [|a s IH]; [constructor|].
  intros [Ha Hs]%contains_cons_false. specialize (IH Hs).
  cbn [file_iter]. destruct (ascii_eqb a LF) eqn:HaLF.
  - constructor; [|done]. apply ascii_eqb_true in HaLF. subst a.
    by apply contains_cons_false.
  - destruct (file_iter s) as [|l ls].
    + constructor; [|done]. by apply contains_cons_false.
    + inversion IH; subst. constructor; [|done].
      by apply contains_cons_false.
Qed.

(** No line that [read_lines] returns holds a line break. *)
Lemma read_lines_clean content :
  Forall (fun l => contains LF l = false /\ contains CR l = false)
         (read_lines content).
Proof.
  unfold read_lines.
  pose proof (file_iter_shape (universal_newlines content)) as Hshape.
  pose proof (file_iter_chars CR _ (universal_newlines_no_CR content)) as HCR.
  induction Hshape as [|l ls (body & Hb & Hl) _ IH]; [constructor|].
  inversion HCR as [|? ? Hlcr Hlscr]; subst. cbn [map].
  constructor; [|by apply IH].
  destruct Hl as [->| ->].
  - rewrite rstrip_id by done. done.
  - unfold NL. rewrite rstrip_line by done. split; [done|].
    rewrite contains_app in Hlcr. by apply orb_false_iff in Hlcr as [? _].
Qed.

(** ** Splitting and joining *)

Lemma split_cons c a rest :
  split c (String a rest) =
    if ascii_eqb a c then "" :: split c rest
    else match split c rest with
         | [] => [String a ""]
         | p :: ps => String a p :: ps
         end.
Proof. reflexivity. Qed.

Lemma split_not_nil c s : split c s <> [].
Proof.
  induction s as [|a s IH]; [done|]. rewrite split_cons.
  destruct (ascii_eqb a c); [done|]. by destruct (split c s).
Qed.

Lemma split_no_sep c s : contains c s = false -> split c s = [s].
Proof.
  induction s as [|a s IH]; [done|].
  intros [Ha Hs]%contains_cons_false. rewrite split_cons, IH by done.
  apply ascii_eqb_false in Ha. by rewrite Ha.
Qed.

Lemma split_app c a b :
  contains c a = false -> split c (a +:+ String c b) = a :: split c b.
Proof.
  induction a as [|x a IH]; intros Ha.
  - cbn [String.append]. rewrite split_cons. by rewrite ascii_eqb_refl.
  - apply contains_cons_false in Ha as [Hx Ha].
    change (String x a +:+ String c b) with (String x (a +:+ String c b)).
    rewrite split_cons, IH by done.
    apply ascii_eqb_false in Hx. by rewrite Hx.
Qed.

Lemma concat_cons2 sep x y l :
  String.concat sep (x :: y :: l) = x +:+ sep +:+ String.concat sep (y :: l).
Proof. reflexivity. Qed.

Lemma concat_split c s : String.concat (String c "") (split c s) = s.
Proof.
  induction s as [|a s IH]; [done|]. rewrite split_cons.
  destruct (ascii_eqb a c) eqn:Ha.
  - apply ascii_eqb_true in Ha. subst a.
    pose proof (split_not_nil c s) as Hne.
    destruct (split c s) as [|q qs]; [done|].
    rewrite concat_cons2, IH. done.
  - pose proof (split_not_nil c s) as Hne.
    destruct (split c s) as [|q qs]; [done|].
    destruct qs as [|q' qs].
    + cbn in IH |- *. by subst.
    + rewrite concat_cons2 in IH |- *. by rewrite <- IH.
Qed.

Lemma split_parts_no_sep c s :
  Forall (fun p => contains c p = false) (split c s).
Proof.
  induction s as [|a s IH]; [by repeat constructor|]. rewrite split_cons.
  destruct (ascii_eqb a c) eqn:Ha.
  - by constructor.
  - pose proof (split_not_nil c s) as Hne.
    destruct (split c s) as [|q qs]; [done|].
    inversion IH; subst. constructor; [|done].
    apply contains_cons_false. by apply ascii_eqb_false in Ha.
Qed.

Lemma split_parts_chars x c s :
  contains x s = false -> Forall (fun p => contains x p = false) (split c s).
Proof.
  induction s as [|a s IH]; [by repeat constructor|].
  intros [Ha Hs]%contains_cons_false. specialize (IH Hs). rewrite split_cons.
  destruct (ascii_eqb a c).
  - by constructor.
  - pose proof (split_not_nil c s) as Hne.
    destruct (split c s) as [|q qs]; [done|].
    inversion IH; subst. constructor; [|done].
    by apply contains_cons_false.
Qed.

Lemma concat_chars x sep l :
  contains x sep = false ->
  Forall (fun p => contains x p = false) l ->
  contains x (String.concat sep l) = false.
Proof.
  intros Hsep. induction 1 as [|p l Hp Hl IH]; [done|].
  destruct l as [|q l]; [done|].
  rewrite concat_cons2, !contains_app, Hp, Hsep, IH. done.
Qed.

(** A line with a comma is its first field, a comma, and the joined rest;
    a line without one has a single part. *)
Lemma split_comma_line line date_str tail :
  split COMMA line = date_str :: tail -> tail <> [] ->
  line = date_str +:+ "," +:+ join_comma tail /\ contains COMMA date_str = false.
Proof.
  intros Hsplit Hne. split.
  - pose proof (concat_split COMMA line) as Hc. rewrite Hsplit in Hc.
    destruct tail as [|q qs]; [done|]. rewrite concat_cons2 in Hc. by rewrite <- Hc.
  - pose proof (split_parts_no_sep COMMA line) as Hp. rewrite Hsplit in Hp.
    by inversion Hp.
Qed.

Lemma split_row date_str v :
  contains COMMA date_str = false ->
  split COMMA (date_str +:+ "," +:+ v) = date_str :: split COMMA v.
Proof. intros Hd. by apply (split_app COMMA). Qed.

Lemma join_split v : join_comma (split COMMA v) = v.
Proof. apply (concat_split COMMA). Qed.

(** ** Formatting and parsing back *)

(** An ASCII digit: one byte, one character, a decimal digit. *)
Definition ascii_digit (c : ascii) : bool :=
  (48 <=? byte c)%N && (byte c <=? 57)%N.

Lemma ascii_digit_byte c : ascii_digit c = true -> (byte c <? 128)%N = true.
Proof.
  unfold ascii_digit. intros [_ H]%andb_true_iff.
  apply N.leb_le in H. apply N.ltb_lt. lia.
Qed.

Lemma ascii_digit_is_digit c : ascii_digit c = true -> is_digit (byte c) = true.
Proof.
  unfold ascii_digit. intros [H1 H2]%andb_true_iff.
  apply N.leb_le in H1, H2.
  unfold is_digit, decimal_value, decimal_zeros. cbn [List.find].
  assert ((48 <=? byte c)%N && (byte c <? 48 + 10)%N = true) as ->; [|done].
  apply andb_true_iff. split; [apply N.leb_le|apply N.ltb_lt]; lia.
Qed.

Lemma decode_utf8_ascii c rest :
  (byte c <? 128)%N = true ->
  decode_utf8 (String c rest) = cons (byte c) <$> decode_utf8 rest.
Proof. intros H. cbn [decode_utf8]. by rewrite H. Qed.

(** [parse_date] on ten ASCII characters of the pattern. *)
Lemma parse_date_digits y1 y2 y3 y4 m1 m2 d1 d2 :
  forallb ascii_digit [y1; y2; y3; y4; m1; m2; d1; d2] = true ->
  parse_date
    (String y1 (String y2 (String y3 (String y4 (String "-" (String m1
      (String m2 (String "-" (String d1 (String d2 ""))))))))))
  = Some (int_of_digits [byte y1; byte y2; byte y3; byte y4],
          int_of_digits [byte m1; byte m2],
          int_of_digits [byte d1; byte d2]).
Proof.
  cbn [forallb]. intros H.
  repeat match goal with H : _ && _ = true |- _ => apply andb_true_iff in H as [? ?] end.
  unfold parse_date.
  rewrite !decode_utf8_ascii by (first [by apply ascii_digit_byte | reflexivity]).
  cbn [decode_utf8 fmap option_fmap option_map length Nat.eqb Nat.ltb Nat.leb orb].
  unfold match_date. cbn [forallb].
  rewrite !ascii_digit_is_digit by done. reflexivity.
Qed.

(** Four digits that read as [y]. *)
Definition four_digits (s : string) (y : Z) : Prop :=
  exists a b c e,
    s = String a (String b (String c (String e "")))
    /\ forallb ascii_digit [a; b; c; e] = true
    /\ int_of_digits [byte a; byte b; byte c; byte e] = y.

Definition two_digits (s : string) (m : Z) : Prop :=
  exists a b,
    s = String a (String b "")
    /\ forallb ascii_digit [a; b] = true
    /\ int_of_digits [byte a; byte b] = m.

Definition check4 (y : Z) : bool :=
  match format_d 4 y with
  | String a (String b (String c (String e EmptyString))) =>
      forallb ascii_digit [a; b; c; e]
      && (int_of_digits [byte a; byte b; byte c; byte e] =? y)
  | _ => false
  end.

Definition check2 (m : Z) : bool :=
  match format_d 2 m with
  | String a (String b EmptyString) =>
      forallb ascii_digit [a; b] && (int_of_digits [byte a; byte b] =? m)
  | _ => false
  end.

Lemma check4_sound y : check4 y = true -> four_digits (format_d 4 y) y.
Proof.
  unfold check4, four_digits.
  destruct (format_d 4 y) as [|a [|b [|c [|e [|]]]]]; try done.
  intros [Hd Hy]%andb_true_iff. apply Z.eqb_eq in Hy. by exists a, b, c, e.
Qed.

Lemma check2_sound m : check2 m = true -> two_digits (format_d 2 m) m.
Proof.
  unfold check2, two_digits.
  destruct (format_d 2 m) as [|a [|b [|]]]; try done.
  intros [Hd Hm]%andb_true_iff. apply Z.eqb_eq in Hm. by exists a, b.
Qed.

Lemma forallb_range (f : Z -> bool) (lo : nat) (n : nat) (z : Z) :
  forallb f (map Z.of_nat (seq lo n)) = true ->
  Z.of_nat lo <= z < Z.of_nat lo + Z.of_nat n -> f z = true.
Proof.
  intros Hall Hz. rewrite forallb_forall in Hall. apply Hall.
  apply in_map_iff. exists (Z.to_nat z). split; [lia|].
  apply in_seq. lia.
Qed.

Lemma format_four y : 0 <= y <= 9999 -> four_digits (format_d 4 y) y.
Proof.
  intros Hy. apply check4_sound.
  apply (forallb_range check4 0 (Z.to_nat 10000)); [by vm_compute|lia].
Qed.

Lemma format_year y : 1800 <= y <= 2100 -> four_digits (format_d 4 y) y.
Proof. intros Hy. apply format_four. lia. Qed.

Lemma format_two m : 0 <= m <= 99 -> two_digits (format_d 2 m) m.
Proof.
  intros Hm. apply check2_sound.
  apply (forallb_range check2 0 100); [by vm_compute|lia].
Qed.

Lemma ascii_digit_neq x c :
  ascii_digit x = true -> ascii_digit c = false -> ascii_eqb x c = false.
Proof.
  intros Hx Hc. apply ascii_eqb_false. intros ->. congruence.
Qed.

(** What [format_date] writes for a year in [0, 9999] and a month and a day
    in [0, 99] reads back under [parse_date], has the ten characters of the
    pattern, and holds no character other than ASCII digits and dashes. *)
Lemma format_date_text y m d :
  0 <= y <= 9999 -> 0 <= m <= 99 -> 0 <= d <= 99 ->
  parse_date (format_date y m d) = Some (y, m, d)
  /\ String.length (format_date y m d) = 10%nat
  /\ forall c, ascii_digit c = false -> c <> DASH ->
               contains c (format_date y m d) = false.
Proof.
  intros Hy Hm Hd. unfold format_date.
  destruct (format_four y Hy) as (a & b & c & e & -> & Hdy & <-).
  destruct (format_two m Hm) as (m1 & m2 & -> & Hdm & <-).
  destruct (format_two d Hd) as (d1 & d2 & -> & Hdd & <-).
  cbn [forallb] in Hdy, Hdm, Hdd.
  repeat match goal with H : _ && _ = true |- _ => apply andb_true_iff in H as [? ?] end.
  split; [|split].
  - cbn [String.append]. apply parse_date_digits. cbn [forallb].
    repeat match goal with H : ascii_digit _ = true |- _ => rewrite H; clear H end.
    done.
  - done.
  - intros x Hx Hne. cbn [String.append contains].
    repeat match goal with
           | H : ascii_digit ?c = true |- _ => rewrite (ascii_digit_neq c x H Hx); clear H
           end.
    assert (ascii_eqb "-" x = false) as ->; [|reflexivity].
    apply ascii_eqb_false. intros <-. by apply Hne.
Qed.

Lemma format_date_valid y m d :
  1800 <= y <= 2100 -> 1 <= m <= 12 -> 1 <= d <= 31 ->
  parse_date (format_date y m d) = Some (y, m, d)
  /\ String.length (format_date y m d) = 10%nat
  /\ forall c, ascii_digit c = false -> c <> DASH ->
               contains c (format_date y m d) = false.
Proof. intros Hy Hm Hd. apply format_date_text; lia. Qed.

(** ** The repair loop *)

Section loop.
Variable asc : bool.

Lemma anchor_year_set_fixed_date rec d :
  anchor_year (set_fixed_date rec d) = anchor_year rec.
Proof. reflexivity. Qed.

(** The scans read the records only through the anchor test. *)
Lemma first_anchor_in_ext (l1 l2 : list record) js :
  anchor_year <$> l1 = anchor_year <$> l2 ->
  first_anchor_in l1 js = first_anchor_in l2 js.
Proof.
  intros Heq. induction js as [|j js IH]; [done|]. cbn [first_anchor_in].
  assert (Hj : anchor_year <$> (l1 !! j) = anchor_year <$> (l2 !! j)).
  { by rewrite <- !list_lookup_fmap, Heq. }
  destruct (l1 !! j) as [r1|], (l2 !! j) as [r2|]; simplify_eq/=; try done.
  rewrite Hj. by destruct (anchor_year r2).
Qed.

Lemma infer_year_ext (l1 l2 : list record) i :
  anchor_year <$> l1 = anchor_year <$> l2 ->
  infer_year l1 asc i = infer_year l2 asc i.
Proof.
  intros Heq. unfold infer_year.
  assert (length l1 = length l2) as ->.
  { by rewrite <- (length_fmap anchor_year l1), Heq, length_fmap. }
  by rewrite !(first_anchor_in_ext l1 l2).
Qed.

Lemma repair_row_ext (l1 l2 : list record) i rec :
  anchor_year <$> l1 = anchor_year <$> l2 ->
  repair_row l1 asc i rec = repair_row l2 asc i rec.
Proof. intros Heq. unfold repair_row. by rewrite (infer_year_ext l1 l2). Qed.

(** Whatever the branch, the row keeps its data and gets a date. *)
Lemma repair_row_fixed records i rec :
  exists d, fst (repair_row records asc i rec) = set_fixed_date rec d.
Proof.
  unfold repair_row. destruct (is_anchor rec); [by eexists|].
  destruct (usable_year _); [|by eexists].
  destruct (month_day rec). by eexists.
Qed.

(** The records and the increments of the whole loop, row by row, all
    computed on the records as parsed. *)
Definition repaired (records : list record) : list record :=
  imap (fun i rec => fst (repair_row records asc i rec)) records.

Definition increments (records : list record) : list nat :=
  imap (fun i rec => snd (repair_row records asc i rec)) records.

Lemma repaired_anchor_year records :
  anchor_year <$> repaired records = anchor_year <$> records.
Proof.
  unfold repaired. apply list_eq. intros i.
  rewrite !list_lookup_fmap, list_lookup_imap.
  destruct (records !! i) as [rec|]; [|done]. cbn.
  destruct (repair_row_fixed records i rec) as [d ->]. done.
Qed.

Lemma repair_upto_spec records k :
  (k <= length records)%nat ->
  repair_upto asc records k =
    (take k (repaired records) ++ drop k records,
     sum_list (take k (increments records))).
Proof.
  unfold repair_upto. induction k as [|k IH]; intros Hk; [done|].
  rewrite seq_S, fold_left_app, IH by lia. cbn [fold_left repair_step Nat.add].
  destruct (lookup_lt_is_Some_2 records k ltac:(lia)) as [rec Hrec].
  set (l := take k (repaired records) ++ drop k records).
  assert (Hl : anchor_year <$> l = anchor_year <$> records).
  { unfold l. rewrite fmap_app, fmap_take, fmap_drop, repaired_anchor_year.
    by rewrite <- fmap_take, <- fmap_drop, <- fmap_app, take_drop. }
  assert (Hlen : length (take k (repaired records)) = k).
  { rewrite length_take. unfold repaired. rewrite length_imap. lia. }
  assert (Hlk : l !! k = Some rec).
  { unfold l. rewrite lookup_app_r by lia. rewrite Hlen, Nat.sub_diag.
    by rewrite lookup_drop, Nat.add_0_r. }
  rewrite Hlk, (repair_row_ext l records) by done.
  destruct (repair_row records asc k rec) as [rec' inc] eqn:Hrow.
  f_equal.
  - unfold l. rewrite insert_app_r_alt by lia. rewrite Hlen, Nat.sub_diag.
    rewrite (drop_S records rec k) by done. cbn [list_insert insert].
    rewrite (take_S_r (repaired records) k rec').
    + by rewrite <- app_assoc.
    + unfold repaired. rewrite list_lookup_imap, Hrec. cbn. by rewrite Hrow.
  - rewrite (take_S_r (increments records) k inc).
    + rewrite sum_list_with_app. cbn. lia.
    + unfold increments. rewrite list_lookup_imap, Hrec. cbn. by rewrite Hrow.
Qed.

(** The loop, although it updates the list it scans, gives every row the
    result computed from the records as parsed. *)
Lemma repair_loop_spec records :
  repair_loop asc records = (repaired records, sum_list (increments records)).
Proof.
  unfold repair_loop. rewrite repair_upto_spec by lia.
  rewrite drop_all. rewrite !firstn_all2.
  - by rewrite app_nil_r.
  - unfold increments. rewrite length_imap. lia.
  - unfold repaired. rewrite length_imap. lia.
Qed.

Lemma repaired_lookup records i rec :
  records !! i = Some rec ->
  repaired records !! i = Some (fst (repair_row records asc i rec)).
Proof.
  intros Hrec. unfold repaired. by rewrite list_lookup_imap, Hrec.
Qed.
End loop.

(** ** Nearest anchors *)

Definition anchor_at (records : list record) (j : nat) (y : Z) : Prop :=
  exists rec, records !! j = Some rec /\ anchor_year rec = Some y.

Definition no_anchor_at (records : list record) (j : nat) : Prop :=
  forall rec, records !! j = Some rec -> anchor_year rec = None.

(** The anchor at [p] is the nearest one strictly before row [i]. *)
Definition nearest_prev (records : list record) (i p : nat) (y : Z) : Prop :=
  (p < i)%nat /\ anchor_at records p y
  /\ forall j, (p < j < i)%nat -> no_anchor_at records j.

(** The anchor at [n] is the nearest one strictly after row [i]. *)
Definition nearest_next (records : list record) (i n : nat) (y : Z) : Prop :=
  (i < n)%nat /\ anchor_at records n y
  /\ forall j, (i < j < n)%nat -> no_anchor_at records j.

Definition no_prev (records : list record) (i : nat) : Prop :=
  forall j, (j < i)%nat -> no_anchor_at records j.

Definition no_next (records : list record) (i : nat) : Prop :=
  forall j, (i < j)%nat -> no_anchor_at records j.

Lemma anchor_at_or_not records j :
  (exists y, anchor_at records j y) \/ no_anchor_at records j.
Proof.
  destruct (records !! j) as [rec|] eqn:Hj.
  - destruct (anchor_year rec) as [y|] eqn:Hy.
    + left. exists y, rec. done.
    + right. intros rec' ?. by simplify_eq.
  - right. intros rec' ?. by simplify_eq.
Qed.

Lemma anchor_at_not records j y :
  anchor_at records j y -> no_anchor_at records j -> False.
Proof. intros (rec & Hj & Hy) Hno. specialize (Hno rec Hj). congruence. Qed.

Lemma anchor_at_inj records j y y' :
  anchor_at records j y -> anchor_at records j y' -> y = y'.
Proof. intros (rec & Hj & Hy) (rec' & Hj' & Hy'). congruence. Qed.

Lemma first_anchor_in_cons records j js :
  first_anchor_in records (j :: js) =
    match records !! j with
    | Some rec =>
        match anchor_year rec with
        | Some year => Some (j, year)
        | None => first_anchor_in records js
        end
    | None => first_anchor_in records js
    end.
Proof. reflexivity. Qed.

Lemma first_anchor_in_hit records j js y :
  anchor_at records j y -> first_anchor_in records (j :: js) = Some (j, y).
Proof. intros (rec & Hj & Hy). by rewrite first_anchor_in_cons, Hj, Hy. Qed.

Lemma first_anchor_in_miss records j js :
  no_anchor_at records j ->
  first_anchor_in records (j :: js) = first_anchor_in records js.
Proof.
  intros Hno. rewrite first_anchor_in_cons.
  destruct (records !! j) as [rec|] eqn:Hj; [|done]. by rewrite (Hno rec).
Qed.

Lemma range_down_S i : range_down (S i) = i :: range_down i.
Proof. unfold range_down. by rewrite seq_S, rev_app_distr. Qed.

(** The downward scan finds the nearest anchor before the row. *)
Lemma scan_prev_spec records i :
  match first_anchor_in records (range_down i) with
  | Some (p, y) => nearest_prev records i p y
  | None => no_prev records i
  end.
Proof.
  induction i as [|i IH].
  - intros j Hj. lia.
  - rewrite range_down_S.
    destruct (anchor_at_or_not records i) as [[y Hy]|Hno].
    + rewrite (first_anchor_in_hit _ _ _ y) by done.
      split; [lia|]. split; [done|]. intros j Hj. lia.
    + rewrite first_anchor_in_miss by done.
      destruct (first_anchor_in records (range_down i)) as [[p y]|].
      * destruct IH as (Hp & Hat & Hbetween). split; [lia|]. split; [done|].
        intros j Hj. destruct (decide (j = i)) as [->|]; [done|].
        apply Hbetween. lia.
      * intros j Hj. destruct (decide (j = i)) as [->|]; [done|].
        apply IH. lia.
Qed.

(** The upward scan over [seq a n] finds the first anchor from [a] on. *)
Lemma scan_up_spec records a n :
  match first_anchor_in records (seq a n) with
  | Some (j, y) =>
      (a <= j < a + n)%nat /\ anchor_at records j y
      /\ forall k, (a <= k < j)%nat -> no_anchor_at records k
  | None => forall k, (a <= k < a + n)%nat -> no_anchor_at records k
  end.
Proof.
  revert a. induction n as [|n IH]; intros a.
  - intros k Hk. lia.
  - cbn [seq]. destruct (anchor_at_or_not records a) as [[y Hy]|Hno].
    + rewrite (first_anchor_in_hit _ _ _ y) by done.
      split; [lia|]. split; [done|]. intros k Hk. lia.
    + rewrite first_anchor_in_miss by done. specialize (IH (S a)).
      destruct (first_anchor_in records (seq (S a) n)) as [[j y]|].
      * destruct IH as (Hj & Hat & Hbefore). split; [lia|]. split; [done|].
        intros k Hk. destruct (decide (k = a)) as [->|]; [done|].
        apply Hbefore. lia.
      * intros k Hk. destruct (decide (k = a)) as [->|]; [done|].
        apply IH. lia.
Qed.

Lemma no_anchor_beyond records k :
  (length records <= k)%nat -> no_anchor_at records k.
Proof. intros Hk rec Hrec. apply lookup_lt_Some in Hrec. lia. Qed.

Lemma scan_next_spec records i :
  match first_anchor_in records (range (i + 1) (length records)) with
  | Some (n, y) => nearest_next records i n y
  | None => no_next records i
  end.
Proof.
  unfold range.
  pose proof (scan_up_spec records (i + 1) (length records - (i + 1))) as H.
  destruct (first_anchor_in _ _) as [[n y]|].
  - destruct H as (Hn & Hat & Hbefore). split; [lia|]. split; [done|].
    intros j Hj. apply Hbefore. lia.
  - intros j Hj. destruct (decide (j < length records)%nat).
    + apply H. lia.
    + apply no_anchor_beyond. lia.
Qed.

Lemma nearest_prev_unique records i p y p' y' :
  nearest_prev records i p y -> nearest_prev records i p' y' ->
  p = p' /\ y = y'.
Proof.
  intros (Hp & Hat & Hb) (Hp' & Hat' & Hb').
  assert (p = p') as <-.
  { destruct (lt_eq_lt_dec p p') as [[Hlt|Heq]|Hgt]; [|done|].
    - exfalso. eapply anchor_at_not; [exact Hat'|]. apply Hb. lia.
    - exfalso. eapply anchor_at_not; [exact Hat|]. apply Hb'. lia. }
  split; [done|]. by eapply anchor_at_inj.
Qed.

Lemma nearest_next_unique records i n y n' y' :
  nearest_next records i n y -> nearest_next records i n' y' ->
  n = n' /\ y = y'.
Proof.
  intros (Hn & Hat & Hb) (Hn' & Hat' & Hb').
  assert (n = n') as <-.
  { destruct (lt_eq_lt_dec n n') as [[Hlt|Heq]|Hgt]; [|done|].
    - exfalso. eapply anchor_at_not; [exact Hat|]. apply Hb'. lia.
    - exfalso. eapply anchor_at_not; [exact Hat'|]. apply Hb. lia. }
  split; [done|]. by eapply anchor_at_inj.
Qed.

Lemma scan_prev_found records i p y :
  nearest_prev records i p y ->
  first_anchor_in records (range_down i) = Some (p, y).
Proof.
  intros Hnear. pose proof (scan_prev_spec records i) as H.
  destruct (first_anchor_in _ _) as [[p' y']|].
  - by destruct (nearest_prev_unique _ _ _ _ _ _ Hnear H) as [-> ->].
  - destruct Hnear as (Hp & Hat & _). exfalso.
    eapply anchor_at_not; [exact Hat|]. by apply H.
Qed.

Lemma scan_prev_none records i :
  no_prev records i -> first_anchor_in records (range_down i) = None.
Proof.
  intros Hno. pose proof (scan_prev_spec records i) as H.
  destruct (first_anchor_in _ _) as [[p y]|]; [|done].
  destruct H as (Hp & Hat & _). exfalso.
  eapply anchor_at_not; [exact Hat|]. by apply Hno.
Qed.

Lemma scan_next_found records i n y :
  nearest_next records i n y ->
  first_anchor_in records (range (i + 1) (length records)) = Some (n, y).
Proof.
  intros Hnear. pose proof (scan_next_spec records i) as H.
  destruct (first_anchor_in _ _) as [[n' y']|].
  - by destruct (nearest_next_unique _ _ _ _ _ _ Hnear H) as [-> ->].
  - destruct Hnear as (Hn & Hat & _). exfalso.
    eapply anchor_at_not; [exact Hat|]. by apply H.
Qed.

Lemma scan_next_none records i :
  no_next records i ->
  first_anchor_in records (range (i + 1) (length records)) = None.
Proof.
  intros Hno. pose proof (scan_next_spec records i) as H.
  destruct (first_anchor_in _ _) as [[n y]|]; [|done].
  destruct H as (Hn & Hat & _). exfalso.
  eapply anchor_at_not; [exact Hat|]. by apply Hno.
Qed.

(** ** The inferred year *)

(** Eleven data rows: anchors at index 0 (1970) and index 10 (1980), nine
    corrupted rows between them. *)
Definition decade_lines : list string :=
  ["1970-01-01,0"; "x971-01-01,1"; "x972-01-01,2"; "x973-01-01,3";
   "x974-01-01,4"; "x975-01-01,5"; "x976-01-01,6"; "x977-01-01,7";
   "x978-01-01,8"; "x979-01-01,9"; "1980-01-01,10"].

(** C1: for a row at index [i], when the nearest anchor after it is at least
    as near as the nearest anchor before it (or there is none before), the
    inferred year is projected backward from the next anchor:
    [next.year - (next_index - i)] when ascending, [next.year + ...] when
    descending; otherwise, when there is an anchor before the row, it is
    projected forward from it: [prev.year + (i - prev_index)] when ascending,
    [prev.year - ...] when descending.  With the nearest anchors of row 3 at
    index 0 (1970) and index 10 (1980), ascending, the inferred year is 1973,
    and that is the year written for row 3 of such a file. *)
Theorem C1_nearest_anchor_projection (records : list record) (asc : bool) (i : nat) :
  (forall n yn,
      nearest_next records i n yn ->
      (forall p yp, nearest_prev records i p yp ->
                    Z.of_nat n - Z.of_nat i <= Z.of_nat i - Z.of_nat p) ->
      infer_year records asc i =
        Some (if asc then yn - (Z.of_nat n - Z.of_nat i)
              else yn + (Z.of_nat n - Z.of_nat i)))
  /\ (forall p yp,
      nearest_prev records i p yp ->
      (forall n yn, nearest_next records i n yn ->
                    Z.of_nat i - Z.of_nat p < Z.of_nat n - Z.of_nat i) ->
      infer_year records asc i =
        Some (if asc then yp + (Z.of_nat i - Z.of_nat p)
              else yp - (Z.of_nat i - Z.of_nat p)))
  /\ (nearest_prev records 3 0 1970 -> nearest_next records 3 10 1980 ->
      infer_year records true 3 = Some 1973)
  /\ (exists written,
        process_csv (lines_text ("date,value" :: decade_lines))
          = (9%nat, Some written)
        /\ read_lines written !! 4%nat = Some "1973-12-30,3").
Proof.
  assert (Hnext : forall n yn,
      nearest_next records i n yn ->
      (forall p yp, nearest_prev records i p yp ->
                    Z.of_nat n - Z.of_nat i <= Z.of_nat i - Z.of_nat p) ->
      infer_year records asc i =
        Some (if asc then yn - (Z.of_nat n - Z.of_nat i)
              else yn + (Z.of_nat n - Z.of_nat i))).
  { intros n yn Hn Hnear. unfold infer_year.
    rewrite (scan_next_found _ _ _ _ Hn).
    pose proof (scan_prev_spec records i) as Hp.
    destruct (first_anchor_in records (range_down i)) as [[p yp]|].
    - cbn [distance_le]. specialize (Hnear p yp Hp).
      apply Z.leb_le in Hnear. rewrite Hnear. by destruct asc.
    - cbn [distance_le]. by destruct asc. }
  assert (Hprev : forall p yp,
      nearest_prev records i p yp ->
      (forall n yn, nearest_next records i n yn ->
                    Z.of_nat i - Z.of_nat p < Z.of_nat n - Z.of_nat i) ->
      infer_year records asc i =
        Some (if asc then yp + (Z.of_nat i - Z.of_nat p)
              else yp - (Z.of_nat i - Z.of_nat p))).
  { intros p yp Hp Hfar. unfold infer_year.
    rewrite (scan_prev_found _ _ _ _ Hp).
    pose proof (scan_next_spec records i) as Hn.
    destruct (first_anchor_in records (range (i + 1) (length records)))
      as [[n yn]|].
    - cbn [distance_le]. specialize (Hfar n yn Hn).
      apply Z.leb_gt in Hfar. rewrite Hfar. by destruct asc.
    - by destruct asc. }
  split; [exact Hnext|]. split; [exact Hprev|]. split.
  - intros Hp Hn. unfold infer_year.
    rewrite (scan_prev_found _ _ _ _ Hp), (scan_next_found _ _ _ _ Hn). done.
  - eexists. split; [by vm_compute|]. by vm_compute.
Qed.

Lemma C1_witness :
  infer_year (parse_records decade_lines) true 3 = Some 1973
  /\ infer_year (parse_records decade_lines) true 7 = Some 1977.
Proof.
  pose (records := parse_records decade_lines).
  assert (Hp : forall i, (0 < i < 10)%nat -> nearest_prev records i 0 1970).
  { intros i Hi. pose proof (scan_prev_spec records i) as H.
    do 10 (destruct i as [|i]; [first [lia | exact H]|]). lia. }
  assert (Hn : forall i, (0 < i < 10)%nat -> nearest_next records i 10 1980).
  { intros i Hi. pose proof (scan_next_spec records i) as H.
    do 10 (destruct i as [|i]; [first [lia | exact H]|]). lia. }
  split.
  - apply (C1_nearest_anchor_projection records true 3);
      [apply Hp; lia | apply Hn; lia].
  - destruct (C1_nearest_anchor_projection records true 7) as (Hnext & _).
    apply (Hnext 10%nat 1980); [apply Hn; lia|].
    intros p yp Hnear.
    destruct (nearest_prev_unique _ _ _ _ _ _ Hnear (Hp 7%nat ltac:(lia)))
      as [-> ->].
    lia.
Defined.

(** ** The run on the lines of a file *)

Lemma is_anchor_true rec :
  is_anchor rec = true <-> exists y, anchor_year rec = Some y.
Proof.
  unfold is_anchor. destruct (anchor_year rec); split; try done.
  - by eexists.
  - by intros [].
Qed.

Lemma is_anchor_false rec : is_anchor rec = false <-> anchor_year rec = None.
Proof. unfold is_anchor. by destruct (anchor_year rec). Qed.

Lemma find_anchor_some records i y :
  anchor_at records i y ->
  exists found, first_anchor_in records (range 0 (length records)) = Some found.
Proof.
  intros Hat. unfold range.
  pose proof (scan_up_spec records 0 (length records - 0)) as H.
  destruct (first_anchor_in _ _) as [found|]; [by eexists|].
  exfalso. eapply anchor_at_not; [exact Hat|].
  destruct Hat as (rec & Hi & _). apply lookup_lt_Some in Hi.
  apply H. lia.
Qed.

Lemma find_anchor_none records :
  Forall (fun rec => is_anchor rec = false) records ->
  first_anchor_in records (range 0 (length records)) = None.
Proof.
  intros Hall. unfold range.
  pose proof (scan_up_spec records 0 (length records - 0)) as H.
  destruct (first_anchor_in _ _) as [[j y]|]; [|done].
  destruct H as (_ & (rec & Hj & Hy) & _).
  rewrite Forall_lookup in Hall. apply Hall in Hj.
  apply is_anchor_false in Hj. congruence.
Qed.

Lemma find_anchor_inv records found :
  first_anchor_in records (range 0 (length records)) = Some found ->
  exists i y, anchor_at records i y.
Proof.
  intros Hfound. unfold range in Hfound.
  pose proof (scan_up_spec records 0 (length records - 0)) as H.
  rewrite Hfound in H. destruct found as [j y].
  destruct H as (_ & Hat & _). by exists j, y.
Qed.

Lemma parse_records_nil_inv data_lines i rec :
  parse_records data_lines !! i = Some rec -> data_lines <> [].
Proof. by destruct data_lines. Qed.

(** A file with a header, data lines and an anchor among its records reaches
    the write, with the records and the count of the loop. *)
Lemma repair_lines_run header data_lines i y :
  anchor_at (parse_records data_lines) i y ->
  repair_lines (header :: data_lines) =
    (sum_list (increments (ascending (parse_records data_lines))
                          (parse_records data_lines)),
     Some (header, repaired (ascending (parse_records data_lines))
                            (parse_records data_lines))).
Proof.
  intros Hat. unfold repair_lines.
  assert (data_lines <> []) as Hne.
  { destruct Hat as (rec & Hi & _). by eapply parse_records_nil_inv. }
  destruct data_lines as [|line rest]; [done|].
  change (Nat.ltb (length (header :: line :: rest)) 2) with false. cbv iota.
  destruct (find_anchor_some _ _ _ Hat) as [found ->].
  by rewrite repair_loop_spec.
Qed.

Lemma repair_lines_inv lines fixed_count header records' :
  repair_lines lines = (fixed_count, Some (header, records')) ->
  exists data_lines,
    lines = header :: data_lines
    /\ (exists i y, anchor_at (parse_records data_lines) i y)
    /\ records' = repaired (ascending (parse_records data_lines))
                           (parse_records data_lines)
    /\ fixed_count = sum_list (increments (ascending (parse_records data_lines))
                                          (parse_records data_lines)).
Proof.
  unfold repair_lines. destruct (Nat.ltb (length lines) 2); [done|].
  destruct lines as [|h data_lines]; [done|].
  destruct (first_anchor_in _ _) as [found|] eqn:Hfound; [|done].
  rewrite repair_loop_spec. intros [= <- <- <-].
  exists data_lines. split; [done|]. split; [|done].
  by eapply find_anchor_inv.
Qed.

Lemma repair_lines_skip lines :
  (length lines < 2)%nat
  \/ Forall (fun rec => is_anchor rec = false) (parse_records (tail lines)) ->
  repair_lines lines = (0%nat, None).
Proof.
  intros H. unfold repair_lines.
  destruct (Nat.ltb (length lines) 2) eqn:Hlen; [done|].
  apply Nat.ltb_ge in Hlen. destruct H as [H|H]; [lia|].
  destruct lines as [|h data_lines]; [done|]. cbn [tail] in H.
  by rewrite find_anchor_none.
Qed.

(** ** The written file *)

Lemma write_csv_lines header records :
  write_csv header records = lines_text (header :: map row_text records).
Proof. unfold write_csv, lines_text. cbn [map]. by rewrite map_map. Qed.

Definition clean (s : string) : Prop :=
  contains LF s = false /\ contains CR s = false.

Lemma clean_app a b : clean a -> clean b -> clean (a +:+ b).
Proof.
  intros [] []. split; rewrite contains_app; by apply orb_false_iff.
Qed.

(** Records parsed from clean lines have clean fields, and a date field
    without a comma. *)
Lemma parse_records_fields data_lines :
  Forall clean data_lines ->
  Forall (fun rec => clean (original_date rec) /\ clean (value rec)
                     /\ contains COMMA (original_date rec) = false
                     /\ parsed rec = parse_date (original_date rec))
         (parse_records data_lines).
Proof.
  induction 1 as [|line rest [Hlf Hcr] _ IH]; [constructor|].
  cbn [parse_records].
  pose proof (split_parts_chars LF COMMA line Hlf) as Hplf.
  pose proof (split_parts_chars CR COMMA line Hcr) as Hpcr.
  pose proof (split_parts_no_sep COMMA line) as Hpc.
  destruct (split COMMA line) as [|date_str [|p tail]]; [done|done|].
  constructor; [|done]. cbn [original_date value parsed]. unfold join_comma.
  inversion Hplf as [|? ? Hd1 Ht1]; inversion Hpcr as [|? ? Hd2 Ht2];
    inversion Hpc; subst.
  repeat split; try done; by apply concat_chars.
Qed.

(** ** One row *)

Lemma usable_year_Some o y :
  usable_year o = Some y <-> o = Some y /\ y <> 0 /\ 1800 <= y <= 2100.
Proof.
  unfold usable_year, is_valid_year.
  destruct o as [z|]; [|by split; [|intros []]].
  destruct (Z.eqb_spec z 0); cbn [negb andb].
  - split; [done|]. intros ([= ->] & ? & ?). done.
  - destruct (Z.leb_spec 1800 z), (Z.leb_spec z 2100); cbn [andb];
      split; try done; try (intros [= ->]; split; [done|]; lia);
      intros ([= ->] & ? & ?); first [done | lia].
Qed.

Lemma usable_year_None o :
  usable_year o = None <->
  o = None \/ o = Some 0 \/ exists y, o = Some y /\ (y < 1800 \/ 2100 < y).
Proof.
  split.
  - intros Hnone. destruct o as [z|]; [|by left]. right.
    destruct (decide (z = 0)) as [->|Hz]; [by left|]. right. exists z.
    split; [done|].
    destruct (decide (1800 <= z <= 2100)) as [Hin|]; [|lia].
    assert (usable_year (Some z) = Some z) by (by apply usable_year_Some).
    congruence.
  - intros [->|[->|(y & -> & Hy)]]; try done.
    destruct (usable_year (Some y)) as [z|] eqn:Hu; [|done].
    apply usable_year_Some in Hu as ([= ->] & _ & ?). lia.
Qed.

Lemma month_day_range rec :
  1 <= fst (month_day rec) <= 12 /\ 1 <= snd (month_day rec) <= 31.
Proof.
  unfold month_day. destruct (parsed rec) as [[[y m] d]|]; cbn; [|lia].
  destruct (Z.leb_spec 1 m), (Z.leb_spec m 12),
           (Z.leb_spec 1 d), (Z.leb_spec d 31); cbn; lia.
Qed.

Lemma repair_row_anchor records asc i rec :
  is_anchor rec = true ->
  repair_row records asc i rec = (set_fixed_date rec (original_date rec), 0%nat).
Proof. intros H. unfold repair_row. by rewrite H. Qed.

Lemma repair_row_verbatim records asc i rec :
  is_anchor rec = false ->
  usable_year (infer_year records asc i) = None ->
  repair_row records asc i rec = (set_fixed_date rec (original_date rec), 0%nat).
Proof. intros H Hu. unfold repair_row. by rewrite H, Hu. Qed.

Lemma repair_row_repaired records asc i rec y :
  is_anchor rec = false ->
  usable_year (infer_year records asc i) = Some y ->
  repair_row records asc i rec =
    (set_fixed_date rec
       (format_date y (fst (month_day rec)) (snd (month_day rec))), 1%nat).
Proof.
  intros H Hu. unfold repair_row. rewrite H, Hu. by destruct (month_day rec).
Qed.

(** The three ways a row leaves the loop. *)
Lemma repair_row_cases records asc i rec :
  (is_anchor rec = true
   /\ repair_row records asc i rec
      = (set_fixed_date rec (original_date rec), 0%nat))
  \/ (is_anchor rec = false
      /\ usable_year (infer_year records asc i) = None
      /\ repair_row records asc i rec
         = (set_fixed_date rec (original_date rec), 0%nat))
  \/ (exists y,
        is_anchor rec = false
        /\ usable_year (infer_year records asc i) = Some y
        /\ repair_row records asc i rec
           = (set_fixed_date rec
                (format_date y (fst (month_day rec)) (snd (month_day rec))),
              1%nat)).
Proof.
  destruct (is_anchor rec) eqn:Ha.
  - left. split; [done|]. by apply repair_row_anchor.
  - right. destruct (usable_year (infer_year records asc i)) as [y|] eqn:Hu.
    + right. exists y. split; [done|]. split; [done|].
      by apply repair_row_repaired.
    + left. split; [done|]. split; [done|]. by apply repair_row_verbatim.
Qed.

Lemma not_digit_LF : ascii_digit LF = false. Proof. reflexivity. Qed.
Lemma not_digit_CR : ascii_digit CR = false. Proof. reflexivity. Qed.
Lemma not_digit_COMMA : ascii_digit COMMA = false. Proof. reflexivity. Qed.

(** A record with clean fields leaves the loop with a clean date that holds
    no comma, so its row is a clean line that splits back into the date and
    the value. *)
Lemma repair_row_text records asc i rec :
  clean (original_date rec) -> clean (value rec) ->
  contains COMMA (original_date rec) = false ->
  exists d,
    fst (repair_row records asc i rec) = set_fixed_date rec d
    /\ clean d /\ contains COMMA d = false.
Proof.
  intros Hd Hv Hc.
  destruct (repair_row_cases records asc i rec)
    as [[_ ->]|[(_ & _ & ->)|(y & _ & Hu & ->)]];
    try (exists (original_date rec); done).
  eexists. split; [done|].
  apply usable_year_Some in Hu as (_ & _ & Hy).
  destruct (month_day_range rec) as [Hm Hday].
  destruct (format_date_valid y _ _ Hy Hm Hday) as (_ & _ & Hchars).
  split; [split|]; apply Hchars; done.
Qed.

(** ** The whole run *)

Definition clean_fields (rec : record) : Prop :=
  clean (original_date rec) /\ clean (value rec)
  /\ contains COMMA (original_date rec) = false
  /\ parsed rec = parse_date (original_date rec).

Lemma row_text_fixed rec d :
  row_text (set_fixed_date rec d) = d +:+ "," +:+ value rec.
Proof. reflexivity. Qed.

Lemma clean_comma : clean ",". Proof. by split. Qed.

Lemma repaired_rows_clean asc records :
  Forall clean_fields records ->
  Forall clean (map row_text (repaired asc records)).
Proof.
  intros Hall. change (Forall clean (row_text <$> repaired asc records)).
  apply Forall_lookup. intros i text Hi.
  unfold repaired in Hi. rewrite list_lookup_fmap, list_lookup_imap in Hi.
  destruct (records !! i) as [rec|] eqn:Hrec; [|done]. cbn in Hi.
  injection Hi as <-.
  rewrite Forall_lookup in Hall. destruct (Hall i rec Hrec) as (Hd & Hv & Hc & _).
  destruct (repair_row_text records asc i rec Hd Hv Hc) as (d & -> & Hcd & _).
  rewrite row_text_fixed. apply clean_app; [done|]. by apply clean_app.
Qed.

Lemma read_lines_fields content header data_lines :
  read_lines content = header :: data_lines ->
  clean header /\ Forall clean_fields (parse_records data_lines).
Proof.
  intros Hread. pose proof (read_lines_clean content) as Hclean.
  rewrite Hread in Hclean. inversion Hclean; subst.
  split; [done|]. by apply parse_records_fields.
Qed.

(** What a run that reaches the write leaves in the file: the header and one
    line per record, which read back as such. *)
Lemma process_csv_inv content fixed_count written :
  process_csv content = (fixed_count, Some written) ->
  exists header data_lines,
    read_lines content = header :: data_lines
    /\ (exists i y, anchor_at (parse_records data_lines) i y)
    /\ fixed_count = sum_list (increments (ascending (parse_records data_lines))
                                          (parse_records data_lines))
    /\ written = write_csv header
                   (repaired (ascending (parse_records data_lines))
                             (parse_records data_lines))
    /\ read_lines written =
         header :: map row_text
                     (repaired (ascending (parse_records data_lines))
                               (parse_records data_lines)).
Proof.
  unfold process_csv.
  destruct (repair_lines (read_lines content)) as [c [[header records']|]] eqn:Hrun;
    [|done].
  intros [= <- <-].
  apply repair_lines_inv in Hrun as (data_lines & Hread & Hanchor & -> & ->).
  exists header, data_lines. repeat split; try done.
  destruct (read_lines_fields _ _ _ Hread) as [Hh Hf].
  rewrite write_csv_lines. apply read_lines_lines_text.
  constructor; [done|]. by apply repaired_rows_clean.
Qed.

Lemma process_csv_run content header data_lines i y :
  read_lines content = header :: data_lines ->
  anchor_at (parse_records data_lines) i y ->
  process_csv content =
    (sum_list (increments (ascending (parse_records data_lines))
                          (parse_records data_lines)),
     Some (write_csv header
             (repaired (ascending (parse_records data_lines))
                       (parse_records data_lines)))).
Proof.
  intros Hread Hat. unfold process_csv.
  by rewrite Hread, (repair_lines_run header data_lines i y).
Qed.

Lemma process_csv_skip content :
  (length (read_lines content) < 2)%nat
  \/ Forall (fun rec => is_anchor rec = false)
            (parse_records (tail (read_lines content))) ->
  process_csv content = (0%nat, None).
Proof. intros H. unfold process_csv. by rewrite repair_lines_skip. Qed.

(** * The claims *)

(** ** C2: the three-row scenario *)

Definition scenario_lines : list string :=
  ["1970-01-01,10"; "09A0-01-01,11"; "1972-01-01,12"].

(** C2, as stated, fails: on the scenario under the header [date,value] the
    second row is not written with the date 1971-01-01. *)
Lemma C2_counterexample :
  ~ (exists written,
        snd (process_csv (lines_text ("date,value" :: scenario_lines)))
          = Some written
        /\ read_lines written !! 2%nat = Some "1971-01-01,11").
Proof.
  intros (written & Hrun & Hrow). vm_compute in Hrun.
  injection Hrun as <-. vm_compute in Hrow. discriminate.
Qed.

(** C2, amended: for the data rows 1970-01-01,10 / 09A0-01-01,11 /
    1972-01-01,12 after any header line, processing writes the second row
    with the date 1971-12-30 (its date field 09A0-01-01 does not parse, so
    month 12 and day 30 are substituted), leaves the first and the third row
    unchanged and returns 1. *)
Theorem C2_scenario_amended (header : string) :
  clean header ->
  process_csv (lines_text (header :: scenario_lines))
    = (1%nat,
       Some (lines_text
               [header; "1970-01-01,10"; "1971-12-30,11"; "1972-01-01,12"]))
  /\ parse_date "09A0-01-01" = None.
Proof.
  intros Hh. split; [|done].
  assert (Hread : read_lines (lines_text (header :: scenario_lines))
                  = header :: scenario_lines).
  { apply read_lines_lines_text. constructor; [done|].
    repeat constructor. }
  assert (Hat : anchor_at (parse_records scenario_lines) 0 1970).
  { eexists. split; reflexivity. }
  rewrite (process_csv_run _ _ _ _ _ Hread Hat), write_csv_lines.
  reflexivity.
Qed.

Lemma C2_witness :
  process_csv (lines_text ("date,value" :: scenario_lines))
    = (1%nat,
       Some (lines_text
               ["date,value"; "1970-01-01,10"; "1971-12-30,11"; "1972-01-01,12"])).
Proof.
  apply (C2_scenario_amended "date,value"). split; reflexivity.
Defined.

(** ** C3: anchors are kept *)

(** C3: for every row whose date field matches the pattern with a year in
    [1800, 2100], the run reaches the write, the loop sets the row's
    [fixed_date] to the original date text, and the row is written back with
    that text. *)
Theorem C3_anchor_preserved
    (content header : string) (data_lines : list string)
    (i : nat) (rec : record) (y m d : Z) :
  read_lines content = header :: data_lines ->
  parse_records data_lines !! i = Some rec ->
  parse_date (original_date rec) = Some (y, m, d) ->
  1800 <= y <= 2100 ->
  exists fixed_count records' written,
    repair_lines (read_lines content) = (fixed_count, Some (header, records'))
    /\ records' !! i = Some (set_fixed_date rec (original_date rec))
    /\ process_csv content = (fixed_count, Some written)
    /\ read_lines written !! S i
       = Some (original_date rec +:+ "," +:+ value rec).
Proof.
  intros Hread Hrec Hparse Hy.
  destruct (read_lines_fields _ _ _ Hread) as [_ Hfields].
  rewrite Forall_lookup in Hfields.
  destruct (Hfields i rec Hrec) as (_ & _ & _ & Hparsed).
  assert (Hyear : anchor_year rec = Some y).
  { unfold anchor_year, is_valid_year. rewrite Hparsed, Hparse.
    destruct (Z.leb_spec 1800 y), (Z.leb_spec y 2100); first [done | lia]. }
  assert (Hat : anchor_at (parse_records data_lines) i y) by (by exists rec).
  assert (Hanchor : is_anchor rec = true) by (apply is_anchor_true; eauto).
  pose proof (process_csv_run _ _ _ _ _ Hread Hat) as Hrun.
  destruct (process_csv_inv _ _ _ Hrun)
    as (h & dl & Hread' & _ & _ & _ & Hlines).
  rewrite Hread in Hread'. injection Hread' as <- <-.
  do 3 eexists. split; [rewrite Hread; by eapply repair_lines_run|].
  split; [|split; [exact Hrun|]].
  - rewrite (repaired_lookup _ _ _ _ Hrec). by rewrite repair_row_anchor.
  - rewrite Hlines.
    change (map row_text ?l) with (row_text <$> l).
    change ((?h :: ?l) !! S i) with (l !! i).
    rewrite list_lookup_fmap, (repaired_lookup _ _ _ _ Hrec).
    by rewrite repair_row_anchor.
Qed.

Lemma C3_witness :
  exists fixed_count records' written,
    repair_lines (read_lines (lines_text ("date,value" :: scenario_lines)))
      = (fixed_count, Some ("date,value", records'))
    /\ records' !! 2%nat
       = Some {| original_date := "1972-01-01"; parsed := Some (1972, 1, 1);
                 value := "12"; fixed_date := Some "1972-01-01" |}
    /\ process_csv (lines_text ("date,value" :: scenario_lines))
       = (fixed_count, Some written)
    /\ read_lines written !! 3%nat = Some "1972-01-01,12".
Proof.
  apply (C3_anchor_preserved
           (lines_text ("date,value" :: scenario_lines)) "date,value"
           scenario_lines 2
           {| original_date := "1972-01-01"; parsed := Some (1972, 1, 1);
              value := "12"; fixed_date := None |} 1972 1 1);
    [reflexivity | reflexivity | reflexivity | lia].
Defined.

(** ** C7: files that are left alone *)

(** C7: a file with fewer than two lines, or whose records hold no anchor,
    makes [process_csv] return 0 without writing, so its content stays what
    it was. *)
Theorem C7_no_op (content : string) :
  (length (read_lines content) < 2)%nat
  \/ Forall (fun rec => is_anchor rec = false)
            (parse_records (tail (read_lines content))) ->
  process_csv content = (0%nat, None) /\ file_after content = content.
Proof.
  intros H. pose proof (process_csv_skip content H) as Hrun.
  split; [done|]. unfold file_after. by rewrite Hrun.
Qed.

Lemma C7_witness :
  (process_csv "date,value" = (0%nat, None)
   /\ file_after "date,value" = "date,value")
  /\ (process_csv (lines_text ["date,value"; "0970-01-01,1"; "garbage,2"])
      = (0%nat, None)
      /\ file_after (lines_text ["date,value"; "0970-01-01,1"; "garbage,2"])
         = lines_text ["date,value"; "0970-01-01,1"; "garbage,2"]).
Proof.
  split.
  - apply (C7_no_op "date,value"). left. vm_compute. lia.
  - apply (C7_no_op (lines_text ["date,value"; "0970-01-01,1"; "garbage,2"])).
    right. vm_compute. repeat constructor.
Defined.

(** ** The counter and the records of the loop, row by row *)

Lemma repair_loop_lookup asc records i rec :
  records !! i = Some rec ->
  fst (repair_loop asc records) !! i
    = Some (fst (repair_row records asc i rec)).
Proof.
  intros Hrec. rewrite repair_loop_spec. cbn [fst].
  by apply repaired_lookup.
Qed.

(** Iteration [i] adds to [fixed_count] what [repair_row] says. *)
Lemma repair_upto_count_step asc records i rec :
  records !! i = Some rec ->
  snd (repair_upto asc records (S i))
    = (snd (repair_upto asc records i)
       + snd (repair_row records asc i rec))%nat.
Proof.
  intros Hrec. pose proof (lookup_lt_Some _ _ _ Hrec) as Hi.
  rewrite !repair_upto_spec by lia. cbn [snd].
  rewrite (take_S_r (increments asc records) i
             (snd (repair_row records asc i rec))).
  - rewrite sum_list_with_app. cbn. lia.
  - unfold increments. by rewrite list_lookup_imap, Hrec.
Qed.

Lemma written_row content fixed_count written header data_lines i rec :
  read_lines content = header :: data_lines ->
  process_csv content = (fixed_count, Some written) ->
  parse_records data_lines !! i = Some rec ->
  read_lines written !! S i
    = Some (row_text
              (fst (repair_row (parse_records data_lines)
                      (ascending (parse_records data_lines)) i rec)))
  /\ fixed_count
     = snd (repair_loop (ascending (parse_records data_lines))
              (parse_records data_lines)).
Proof.
  intros Hread Hrun Hrec.
  destruct (process_csv_inv _ _ _ Hrun)
    as (h & dl & Hread' & _ & -> & _ & Hlines).
  rewrite Hread in Hread'. injection Hread' as <- <-.
  split; [|by rewrite repair_loop_spec].
  rewrite Hlines.
  change (map row_text ?l) with (row_text <$> l).
  change ((?h :: ?l) !! S i) with (l !! i).
  by rewrite list_lookup_fmap, (repaired_lookup _ _ _ _ Hrec).
Qed.

(** ** C5: rows that cannot be repaired *)

(** C5: a corrupted row whose inferred year is undefined, zero or outside
    [1800, 2100] keeps its date field: the loop sets [fixed_date] to the
    original text, the row is written back as it was read, and the iteration
    leaves [fixed_count] as it was, so the row is not in the returned count. *)
Theorem C5_unrepaired_verbatim
    (content header written : string) (data_lines : list string)
    (fixed_count i : nat) (rec : record) :
  read_lines content = header :: data_lines ->
  process_csv content = (fixed_count, Some written) ->
  parse_records data_lines !! i = Some rec ->
  is_anchor rec = false ->
  (infer_year (parse_records data_lines)
      (ascending (parse_records data_lines)) i = None
   \/ infer_year (parse_records data_lines)
        (ascending (parse_records data_lines)) i = Some 0
   \/ exists y,
        infer_year (parse_records data_lines)
          (ascending (parse_records data_lines)) i = Some y
        /\ (y < 1800 \/ 2100 < y)) ->
  fst (repair_loop (ascending (parse_records data_lines))
         (parse_records data_lines)) !! i
    = Some (set_fixed_date rec (original_date rec))
  /\ read_lines written !! S i = Some (original_date rec +:+ "," +:+ value rec)
  /\ snd (repair_upto (ascending (parse_records data_lines))
            (parse_records data_lines) (S i))
     = snd (repair_upto (ascending (parse_records data_lines))
              (parse_records data_lines) i)
  /\ fixed_count
     = snd (repair_loop (ascending (parse_records data_lines))
              (parse_records data_lines)).
Proof.
  intros Hread Hrun Hrec Hcorrupt Hyear.
  apply usable_year_None in Hyear.
  pose proof (repair_row_verbatim _ _ _ _ Hcorrupt Hyear) as Hrow.
  destruct (written_row _ _ _ _ _ _ _ Hread Hrun Hrec) as [Hline Hcount].
  rewrite Hrow in Hline.
  split; [by rewrite (repair_loop_lookup _ _ _ _ Hrec), Hrow|].
  split; [done|]. split; [|done].
  rewrite (repair_upto_count_step _ _ _ _ Hrec), Hrow. cbn. lia.
Qed.

(** Between two anchors of year 1800 the second row is inferred as 1799. *)
Definition edge_low_lines : list string :=
  ["1800-01-01,a"; "x,b"; "y,c"; "1800-01-01,d"].

(** After a lone anchor of year 2100 the next row is inferred as 2101. *)
Definition edge_high_lines : list string := ["2100-05-05,a"; "zzz,b"].

Lemma C5_witness :
  (infer_year (parse_records edge_low_lines)
     (ascending (parse_records edge_low_lines)) 1 = Some 1799
   /\ exists written,
        process_csv (lines_text ("h" :: edge_low_lines)) = (1%nat, Some written)
        /\ read_lines written !! 2%nat = Some "x,b")
  /\ (infer_year (parse_records edge_high_lines)
        (ascending (parse_records edge_high_lines)) 1 = Some 2101
      /\ exists written,
           process_csv (lines_text ("h" :: edge_high_lines))
             = (0%nat, Some written)
           /\ read_lines written !! 2%nat = Some "zzz,b").
Proof.
  split; (split; [reflexivity|]); eexists; (split; [by vm_compute|]).
  - eapply (C5_unrepaired_verbatim
              (lines_text ("h" :: edge_low_lines)) "h" _ edge_low_lines 1 1
              {| original_date := "x"; parsed := None; value := "b";
                 fixed_date := None |});
      [reflexivity | by vm_compute | reflexivity | reflexivity |].
    right. right. exists 1799. split; [reflexivity | lia].
  - eapply (C5_unrepaired_verbatim
              (lines_text ("h" :: edge_high_lines)) "h" _ edge_high_lines 0 1
              {| original_date := "zzz"; parsed := None; value := "b";
                 fixed_date := None |});
      [reflexivity | by vm_compute | reflexivity | reflexivity |].
    right. right. exists 2101. split; [reflexivity | lia].
Defined.

(** ** C8: month and day of a repaired row *)

(** A row whose date has the structure but month 00, and a row whose date
    has no structure at all, between two anchors. *)
Definition month_zero_lines : list string :=
  ["1970-01-01,1"; "0971-00-15,a"; "09A0-00-15,b"; "1973-01-01,1"].

(** C8, as stated, fails in its last sentence: the row 0971-00-15, whose
    date has the structure of the pattern, an invalid year and the month 00,
    is written with the month 12 and its own day 15, not with the day 30. *)
Lemma C8_counterexample :
  exists written,
    snd (process_csv (lines_text ("date,value" :: month_zero_lines)))
      = Some written
    /\ parse_date "0971-00-15" = Some (971, 0, 15)
    /\ read_lines written !! 2%nat = Some "1971-12-15,a"
    /\ read_lines written !! 2%nat <> Some "1971-12-30,a".
Proof.
  eexists. split; [by vm_compute|]. split; [reflexivity|].
  split; [by vm_compute|]. vm_compute. discriminate.
Qed.

(** C8, amended: a corrupted row that is repaired (its inferred year [y] is
    non-zero and in [1800, 2100]) gets the date [format_date y month day]
    where, if the original date field parsed structurally, [month] is the
    original month when in [1, 12] and 12 otherwise and, independently,
    [day] is the original day when in [1, 31] and 30 otherwise; and where
    month 12 and day 30 are substituted if the field did not parse at all.
    In particular a row whose date parses structurally with the month 00
    gets the month 12 and keeps its day when in [1, 31], as 0971-00-15
    written 1971-12-15; the month 12 and the day 30 replace both, whatever
    the day text, only for a date field that does not parse, as
    09A0-00-15. *)
Theorem C8_month_day_amended
    (records : list record) (asc : bool) (i : nat) (rec : record) (y : Z) :
  records !! i = Some rec ->
  is_anchor rec = false ->
  infer_year records asc i = Some y ->
  y <> 0 -> 1800 <= y <= 2100 ->
  (exists month day,
      fst (repair_loop asc records) !! i
        = Some (set_fixed_date rec (format_date y month day))
      /\ (forall y0 m d,
             parsed rec = Some (y0, m, d) ->
             (1 <= m <= 12 -> month = m) /\ (~ 1 <= m <= 12 -> month = 12)
             /\ (1 <= d <= 31 -> day = d) /\ (~ 1 <= d <= 31 -> day = 30))
      /\ (parsed rec = None -> month = 12 /\ day = 30)
      /\ (forall y0 d,
             parsed rec = Some (y0, 0, d) -> 1 <= d <= 31 ->
             month = 12 /\ day = d))
  /\ (parse_date "09A0-00-15" = None
      /\ process_csv (lines_text ("date,value" :: month_zero_lines))
         = (2%nat,
            Some (lines_text
                    ["date,value"; "1970-01-01,1"; "1971-12-15,a";
                     "1972-12-30,b"; "1973-01-01,1"]))).
Proof.
  intros Hrec Hcorrupt Hinfer Hnz Hy. split; [|split; [done|by vm_compute]].
  assert (Hu : usable_year (infer_year records asc i) = Some y).
  { rewrite Hinfer. by apply usable_year_Some. }
  exists (fst (month_day rec)), (snd (month_day rec)).
  split; [|split; [|split]].
  - rewrite (repair_loop_lookup _ _ _ _ Hrec).
    by rewrite (repair_row_repaired _ _ _ _ y).
  - intros y0 m d Hparsed. unfold month_day. rewrite Hparsed. cbn [fst snd].
    destruct (Z.leb_spec 1 m), (Z.leb_spec m 12),
             (Z.leb_spec 1 d), (Z.leb_spec d 31); cbn [andb];
      repeat split; intros; first [done | lia].
  - intros Hparsed. unfold month_day. by rewrite Hparsed.
  - intros y0 d Hparsed Hd. unfold month_day. rewrite Hparsed. cbn [fst snd].
    destruct (Z.leb_spec 1 d), (Z.leb_spec d 31); cbn [andb];
      first [done | lia].
Qed.

Lemma C8_witness :
  (exists month day,
      fst (repair_loop true (parse_records month_zero_lines)) !! 1%nat
        = Some {| original_date := "0971-00-15"; parsed := Some (971, 0, 15);
                  value := "a";
                  fixed_date := Some (format_date 1971 month day) |}
      /\ month = 12 /\ day = 15)
  /\ (exists month day,
      fst (repair_loop true (parse_records month_zero_lines)) !! 2%nat
        = Some {| original_date := "09A0-00-15"; parsed := None;
                  value := "b";
                  fixed_date := Some (format_date 1972 month day) |}
      /\ month = 12 /\ day = 30).
Proof.
  split.
  - destruct (C8_month_day_amended (parse_records month_zero_lines) true 1
                {| original_date := "0971-00-15"; parsed := Some (971, 0, 15);
                   value := "a"; fixed_date := None |} 1971)
      as [(month & day & Hfixed & _ & _ & Hzero) _];
      [reflexivity | reflexivity | reflexivity | lia | lia |].
    exists month, day. split; [exact Hfixed|].
    apply (Hzero 971 15); [reflexivity|lia].
  - destruct (C8_month_day_amended (parse_records month_zero_lines) true 2
                {| original_date := "09A0-00-15"; parsed := None;
                   value := "b"; fixed_date := None |} 1972)
      as [(month & day & Hfixed & _ & Hnone & _) _];
      [reflexivity | reflexivity | reflexivity | lia | lia |].
    exists month, day. split; [exact Hfixed|]. by apply Hnone.
Defined.

(** ** C10: what the loop leaves in [fixed_date] *)

(** The Gregorian calendar, used only to state that a written date need not
    be a date of the calendar; the script has no such test. *)
Definition is_leap_year (y : Z) : bool :=
  ((y mod 4 =? 0) && negb (y mod 100 =? 0)) || (y mod 400 =? 0).

Definition days_in_month (y m : Z) : Z :=
  if m =? 2 then (if is_leap_year y then 29 else 28)
  else if (m =? 4) || (m =? 6) || (m =? 9) || (m =? 11) then 30
  else 31.

Definition calendar_date (y m d : Z) : bool :=
  (1 <=? m) && (m <=? 12) && (1 <=? d) && (d <=? days_in_month y m).

(** A corrupted row with day 31 in February. *)
Definition february_lines : list string :=
  ["1970-01-01,1"; "0971-02-31,5"; "1972-01-01,1"].

(** C10: after a run that passes the early returns every record has a
    [fixed_date]; and for every row counted as repaired (its iteration adds
    one to [fixed_count]) the date written is ten characters that match the
    pattern, with year in [1800, 2100], month in [1, 12] and day in [1, 31].
    It need not be a date of the calendar: 1971-02-31 is written. *)
Theorem C10_fixed_date_valid
    (lines : list string) (fixed_count : nat) (header : string)
    (records' : list record) :
  repair_lines lines = (fixed_count, Some (header, records')) ->
  Forall (fun rec' => fixed_date rec' <> None) records'
  /\ (forall i rec,
         parse_records (tail lines) !! i = Some rec ->
         snd (repair_upto (ascending (parse_records (tail lines)))
                (parse_records (tail lines)) (S i))
           = S (snd (repair_upto (ascending (parse_records (tail lines)))
                       (parse_records (tail lines)) i)) ->
         exists date y m d,
           fixed_date <$> records' !! i = Some (Some date)
           /\ String.length date = 10%nat
           /\ parse_date date = Some (y, m, d)
           /\ 1800 <= y <= 2100 /\ 1 <= m <= 12 /\ 1 <= d <= 31)
  /\ (process_csv (lines_text ("date,value" :: february_lines))
        = (1%nat,
           Some (lines_text
                   ["date,value"; "1970-01-01,1"; "1971-02-31,5";
                    "1972-01-01,1"]))
      /\ parse_date "1971-02-31" = Some (1971, 2, 31)
      /\ calendar_date 1971 2 31 = false).
Proof.
  intros Hrun.
  apply repair_lines_inv in Hrun as (data_lines & -> & _ & -> & ->).
  cbn [tail]. split; [|split; [|by vm_compute]].
  - apply Forall_lookup. intros i rec' Hi.
    unfold repaired in Hi. rewrite list_lookup_imap in Hi.
    destruct (parse_records data_lines !! i) as [rec|] eqn:Hrec; [|done].
    cbn in Hi. injection Hi as <-.
    by destruct (repair_row_fixed (ascending (parse_records data_lines))
                   (parse_records data_lines) i rec) as [d ->].
  - intros i rec Hrec Hstep.
    rewrite (repair_upto_count_step _ _ _ _ Hrec) in Hstep.
    rewrite (repaired_lookup _ _ _ _ Hrec). cbn [fmap option_fmap option_map].
    destruct (repair_row_cases (parse_records data_lines)
                (ascending (parse_records data_lines)) i rec)
      as [[_ Hrow]|[(_ & _ & Hrow)|(y & _ & Hu & Hrow)]];
      rewrite Hrow in Hstep |- *; cbn [fst snd] in Hstep |- *; try lia.
    apply usable_year_Some in Hu as (_ & _ & Hy).
    destruct (month_day_range rec) as [Hm Hd].
    destruct (format_date_valid y _ _ Hy Hm Hd) as (Hparse & Hlen & _).
    by exists (format_date y (fst (month_day rec)) (snd (month_day rec))),
              y, (fst (month_day rec)), (snd (month_day rec)).
Qed.

Lemma C10_witness :
  Forall (fun rec' => fixed_date rec' <> None)
    (repaired true (parse_records february_lines))
  /\ exists date y m d,
       fixed_date <$> repaired true (parse_records february_lines) !! 1%nat
         = Some (Some date)
       /\ String.length date = 10%nat
       /\ parse_date date = Some (y, m, d)
       /\ 1800 <= y <= 2100 /\ 1 <= m <= 12 /\ 1 <= d <= 31.
Proof.
  destruct (C10_fixed_date_valid ("date,value" :: february_lines) 1
              "date,value" (repaired true (parse_records february_lines)))
    as (Hall & Hrow & _); [by vm_compute|].
  split; [exact Hall|].
  apply (Hrow 1%nat {| original_date := "0971-02-31";
                       parsed := Some (971, 2, 31); value := "5";
                       fixed_date := None |}); by vm_compute.
Defined.

(** ** C9: the direction *)

Lemma valid_years_cons rec records :
  valid_years (rec :: records) =
    match anchor_year rec with
    | Some y => y :: valid_years records
    | None => valid_years records
    end.
Proof. reflexivity. Qed.

Lemma anchor_at_0 rec records y :
  anchor_at (rec :: records) 0 y <-> anchor_year rec = Some y.
Proof.
  split.
  - intros (r & Hr & Hy). cbn in Hr. by simplify_eq.
  - intros Hy. by exists rec.
Qed.

Lemma anchor_at_S rec records j y :
  anchor_at (rec :: records) (S j) y <-> anchor_at records j y.
Proof. done. Qed.

Lemma no_anchor_at_0 rec records :
  no_anchor_at (rec :: records) 0 <-> anchor_year rec = None.
Proof.
  split.
  - intros H. by apply H.
  - intros Hy r Hr. cbn in Hr. by simplify_eq.
Qed.

Lemma no_anchor_at_S rec records j :
  no_anchor_at (rec :: records) (S j) <-> no_anchor_at records j.
Proof. done. Qed.

Lemma valid_years_not_nil records :
  valid_years records <> [] -> exists j y, anchor_at records j y.
Proof.
  induction records as [|rec records IH]; [done|].
  rewrite valid_years_cons. destruct (anchor_year rec) as [y|] eqn:Hy.
  - intros _. exists 0%nat, y. by apply anchor_at_0.
  - intros Hne. destruct (IH Hne) as (j & y & Hat). by exists (S j), y.
Qed.

Lemma valid_years_has records j y :
  anchor_at records j y -> valid_years records <> [].
Proof.
  revert j. induction records as [|rec records IH]; intros j Hat.
  - by destruct Hat as (r & Hr & _).
  - rewrite valid_years_cons. destruct j as [|j].
    + apply anchor_at_0 in Hat. by rewrite Hat.
    + destruct (anchor_year rec); [done|]. by eapply IH.
Qed.

(** The first of [valid_years] is the year of the first anchor. *)
Lemma valid_years_first records i y :
  anchor_at records i y ->
  (forall k, (k < i)%nat -> no_anchor_at records k) ->
  exists rest,
    valid_years records = y :: rest
    /\ (rest <> [] <-> exists j y', (i < j)%nat /\ anchor_at records j y').
Proof.
  revert i. induction records as [|rec records IH]; intros i Hat Hbefore.
  - by destruct Hat as (r & Hr & _).
  - rewrite valid_years_cons. destruct i as [|i].
    + apply anchor_at_0 in Hat. rewrite Hat.
      exists (valid_years records). split; [done|]. split.
      * intros Hne. destruct (valid_years_not_nil _ Hne) as (j & y' & Hj).
        exists (S j), y'. split; [lia|done].
      * intros (j & y' & Hj & Hat'). destruct j as [|j]; [lia|].
        by eapply valid_years_has.
    + assert (anchor_year rec = None) as ->.
      { apply (Hbefore 0%nat ltac:(lia) rec). reflexivity. }
      destruct (IH i) as (rest & Hrest & Hiff); [done| |].
      { intros k Hk. exact (Hbefore (S k) ltac:(lia)). }
      exists rest. split; [done|]. rewrite Hiff. split.
      * intros (j & y' & Hj & Hat'). exists (S j), y'. split; [lia|done].
      * intros (j & y' & Hj & Hat'). destruct j as [|j]; [lia|].
        exists j, y'. split; [lia|done].
Qed.

(** The last of [valid_years] is the year of the last anchor. *)
Lemma valid_years_last records j y :
  anchor_at records j y ->
  (forall k, (j < k)%nat -> no_anchor_at records k) ->
  List.last (valid_years records) 0 = y.
Proof.
  revert j. induction records as [|rec records IH]; intros j Hat Hafter.
  - by destruct Hat as (r & Hr & _).
  - rewrite valid_years_cons. destruct j as [|j].
    + apply anchor_at_0 in Hat. rewrite Hat.
      destruct (valid_years records) as [|z zs] eqn:Hvy; [done|].
      destruct (valid_years_not_nil records) as (k & y' & Hk);
        [by rewrite Hvy|].
      exfalso. eapply anchor_at_not; [exact Hk|].
      exact (Hafter (S k) ltac:(lia)).
    + assert (Hlast : List.last (valid_years records) 0 = y).
      { apply (IH j); [done|]. intros k Hk.
        exact (Hafter (S k) ltac:(lia)). }
      destruct (anchor_year rec) as [z|]; [|done].
      pose proof (valid_years_has records j y Hat) as Hne.
      destruct (valid_years records) as [|z' zs]; [done|]. exact Hlast.
Qed.

Lemma valid_years_two_inv records :
  (2 <= length (valid_years records))%nat ->
  exists i j yi yj,
    (i < j)%nat /\ anchor_at records i yi /\ anchor_at records j yj.
Proof.
  induction records as [|rec records IH]; [cbn; lia|].
  rewrite valid_years_cons. destruct (anchor_year rec) as [y|] eqn:Hy.
  - intros Hlen. cbn [length] in Hlen.
    destruct (valid_years_not_nil records) as (j & yj & Hj).
    { destruct (valid_years records); [cbn in Hlen; lia|done]. }
    exists 0%nat, (S j), y, yj. split; [lia|]. split; [|done].
    by apply anchor_at_0.
  - intros Hlen. destruct (IH Hlen) as (i & j & yi & yj & Hij & Hi & Hj).
    exists (S i), (S j), yi, yj. split; [lia|done].
Qed.

(** C9: the direction is computed once from the records as parsed and used
    for every row.  With a first anchor and a last anchor at different rows,
    it is ascending exactly when the year of the last is strictly greater
    than the year of the first; with fewer than two anchors it is
    ascending. *)
Theorem C9_direction (records : list record) :
  (forall i j yi yj,
      anchor_at records i yi ->
      (forall k, (k < i)%nat -> no_anchor_at records k) ->
      anchor_at records j yj ->
      (forall k, (j < k)%nat -> no_anchor_at records k) ->
      i <> j ->
      (ascending records = true <-> yi < yj))
  /\ ((forall i j yi yj,
          anchor_at records i yi -> anchor_at records j yj -> i = j) ->
      ascending records = true)
  /\ (forall header data_lines fixed_count records',
        parse_records data_lines = records ->
        repair_lines (header :: data_lines)
          = (fixed_count, Some (header, records')) ->
        forall i rec,
          records !! i = Some rec ->
          records' !! i
            = Some (fst (repair_row records (ascending records) i rec))).
Proof.
  split; [|split].
  - intros i j yi yj Hi Hfirst Hj Hlast Hne. unfold ascending.
    destruct (valid_years_first _ _ _ Hi Hfirst) as (rest & Hvy & Hrest).
    pose proof (valid_years_last _ _ _ Hj Hlast) as Hl.
    assert (rest <> []) as Hnonempty.
    { apply Hrest. exists j, yj. split; [|done].
      destruct (lt_eq_lt_dec i j) as [[?|?]|Hgt]; [done|done|].
      exfalso. eapply anchor_at_not; [exact Hi|]. by apply Hlast. }
    rewrite Hvy in Hl |- *. destruct rest as [|z zs]; [done|].
    cbn [length Nat.leb List.hd]. rewrite Hl. apply Z.ltb_lt.
  - intros Hone. unfold ascending.
    destruct (Nat.leb 2 (length (valid_years records))) eqn:Hlen; [|done].
    apply Nat.leb_le in Hlen.
    destruct (valid_years_two_inv _ Hlen) as (i & j & yi & yj & Hij & Hi & Hj).
    specialize (Hone i j yi yj Hi Hj). lia.
  - intros header data_lines fixed_count records' <- Hrun i rec Hrec.
    apply repair_lines_inv in Hrun as (dl & [= <-] & _ & -> & _).
    by apply repaired_lookup.
Qed.

Lemma C9_witness :
  (ascending (parse_records month_zero_lines) = true <-> 1970 < 1973)
  /\ ascending (parse_records edge_high_lines) = true.
Proof.
  split.
  - destruct (C9_direction (parse_records month_zero_lines)) as (Hdir & _).
    apply (Hdir 0%nat 3%nat 1970 1973).
    + eexists. split; reflexivity.
    + intros k Hk. lia.
    + eexists. split; reflexivity.
    + intros k Hk. apply no_anchor_beyond. cbn. lia.
    + lia.
  - destruct (C9_direction (parse_records edge_high_lines)) as (_ & Hone & _).
    apply Hone. intros i j yi yj (ri & Hi & Hyi) (rj & Hj & Hyj).
    destruct i as [|[|i]], j as [|[|j]]; cbn in Hi, Hj; simplify_eq; done.
Defined.

(** ** C6: the rows of the rewritten file *)

Lemma split_has_sep c s :
  contains c s = true -> exists p q tail, split c s = p :: q :: tail.
Proof.
  induction s as [|a s IH]; [done|].
  rewrite contains_cons, split_cons. destruct (ascii_eqb a c) eqn:Ha.
  - intros _. pose proof (split_not_nil c s) as Hne.
    destruct (split c s) as [|q tail]; [done|]. by exists "", q, tail.
  - cbn [orb]. intros Hs. destruct (IH Hs) as (p & q & tail & ->).
    by exists (String a p), q, tail.
Qed.

(** The records are the data lines that hold a comma, in their order: the
    date is the text before the first comma, the value the text after it. *)
Lemma parse_records_filter data_lines :
  Forall2 (fun line rec =>
             line = original_date rec +:+ "," +:+ value rec
             /\ contains COMMA (original_date rec) = false)
          (List.filter (contains COMMA) data_lines)
          (parse_records data_lines).
Proof.
  induction data_lines as [|line rest IH]; [constructor|].
  cbn [List.filter parse_records].
  destruct (contains COMMA line) eqn:Hc.
  - destruct (split_has_sep _ _ Hc) as (p & q & tail & Hsplit).
    rewrite Hsplit. constructor; [|done]. cbn [original_date value].
    by apply split_comma_line.
  - by rewrite (split_no_sep _ _ Hc).
Qed.

(** A data line without a comma between two anchors. *)
Definition bare_line_file : string :=
  lines_text ["date,value"; "1970-01-01,1"; "no comma here"; "1971-01-01,2"].

(** C6, as stated, fails: the data line that holds no comma has no row in
    the rewritten file, which has two data rows for three data lines. *)
Lemma C6_counterexample :
  exists written,
    snd (process_csv bare_line_file) = Some written
    /\ tail (read_lines bare_line_file)
       = ["1970-01-01,1"; "no comma here"; "1971-01-01,2"]
    /\ tail (read_lines written) = ["1970-01-01,1"; "1971-01-01,2"]
    /\ length (tail (read_lines written))
       <> length (tail (read_lines bare_line_file)).
Proof.
  eexists. split; [by vm_compute|]. split; [by vm_compute|].
  split; [by vm_compute|]. vm_compute. lia.
Qed.

(** C6, amended: the file that [process_csv] rewrites keeps the header and
    has one data row for every data line of the input that holds a comma, in
    the same order, with the text after the first comma unchanged (the date
    written before it holds no comma); a data line without a comma (fewer
    than two comma-separated fields) is left out by the test of line 54. *)
Theorem C6_rows_amended (content : string) (fixed_count : nat) (written : string) :
  process_csv content = (fixed_count, Some written) ->
  exists header data_lines rows,
    read_lines content = header :: data_lines
    /\ read_lines written = header :: rows
    /\ length rows = length (List.filter (contains COMMA) data_lines)
    /\ Forall2 (fun line row =>
                  exists date_str date' payload,
                    line = date_str +:+ "," +:+ payload
                    /\ contains COMMA date_str = false
                    /\ row = date' +:+ "," +:+ payload
                    /\ contains COMMA date' = false)
               (List.filter (contains COMMA) data_lines) rows.
Proof.
  intros Hrun.
  destruct (process_csv_inv _ _ _ Hrun)
    as (header & data_lines & Hread & _ & _ & _ & Hlines).
  exists header, data_lines. eexists. split; [done|]. split; [exact Hlines|].
  pose proof (parse_records_filter data_lines) as Hfilter.
  destruct (read_lines_fields _ _ _ Hread) as [_ Hfields].
  set (records := parse_records data_lines) in *.
  assert (Hrows : Forall2 (fun rec row =>
                             exists date',
                               row = date' +:+ "," +:+ value rec
                               /\ contains COMMA date' = false)
                    records
                    (map row_text (repaired (ascending records) records))).
  { change (map row_text ?l) with (row_text <$> l).
    apply Forall2_same_length_lookup. split.
    - unfold repaired. by rewrite length_fmap, length_imap.
    - intros i rec row Hrec Hrow.
      rewrite list_lookup_fmap, (repaired_lookup _ _ _ _ Hrec) in Hrow.
      injection Hrow as <-.
      rewrite Forall_lookup in Hfields.
      destruct (Hfields i rec Hrec) as (Hd & Hv & Hc & _).
      destruct (repair_row_text records (ascending records) i rec Hd Hv Hc)
        as (d & -> & _ & Hcd).
      by exists d. }
  split.
  - rewrite <- (Forall2_length _ _ _ Hrows). symmetry.
    by eapply Forall2_length.
  - eapply Forall2_trans; [| exact Hfilter | exact Hrows].
    intros line rec row [-> Hc] (date' & -> & Hcd). by do 3 eexists.
Qed.

Lemma C6_witness :
  exists header data_lines rows,
    read_lines bare_line_file = header :: data_lines
    /\ read_lines
         (lines_text ["date,value"; "1970-01-01,1"; "1971-01-01,2"])
       = header :: rows
    /\ length rows = length (List.filter (contains COMMA) data_lines)
    /\ Forall2 (fun line row =>
                  exists date_str date' payload,
                    line = date_str +:+ "," +:+ payload
                    /\ contains COMMA date_str = false
                    /\ row = date' +:+ "," +:+ payload
                    /\ contains COMMA date' = false)
               (List.filter (contains COMMA) data_lines) rows.
Proof.
  apply (C6_rows_amended bare_line_file 0). by vm_compute.
Defined.

(** ** C4: a second run *)

(** The record that the written row of [rec] is parsed to by the next run:
    its date is the date written. *)
Definition reread (rec : record) : record :=
  let d := match fixed_date rec with Some d => d | None => "None" end in
  {| original_date := d;
     parsed := parse_date d;
     value := value rec;
     fixed_date := None |}.

Lemma row_text_reread rec :
  row_text rec = original_date (reread rec) +:+ "," +:+ value (reread rec).
Proof. reflexivity. Qed.

Lemma parse_records_rows recs :
  Forall (fun rec => exists d, fixed_date rec = Some d
                               /\ contains COMMA d = false) recs ->
  parse_records (map row_text recs) = map reread recs.
Proof.
  induction 1 as [|rec recs (d & Hd & Hc) _ IH]; [done|].
  cbn [map parse_records]. unfold row_text at 1.
  rewrite Hd, (split_row _ _ Hc).
  pose proof (split_not_nil COMMA (value rec)) as Hne.
  destruct (split COMMA (value rec)) as [|q tail] eqn:Hs; [done|].
  rewrite IH, <- Hs, join_split. unfold reread at 2. by rewrite Hd.
Qed.

Lemma repaired_fixed asc records :
  Forall clean_fields records ->
  Forall (fun rec => exists d, fixed_date rec = Some d
                               /\ contains COMMA d = false)
         (repaired asc records).
Proof.
  intros Hall. apply Forall_lookup. intros i rec' Hi.
  unfold repaired in Hi. rewrite list_lookup_imap in Hi.
  destruct (records !! i) as [rec|] eqn:Hrec; [|done]. cbn in Hi.
  injection Hi as <-.
  rewrite Forall_lookup in Hall. destruct (Hall i rec Hrec) as (Hd & Hv & Hc & _).
  destruct (repair_row_text records asc i rec Hd Hv Hc) as (d & -> & _ & Hcd).
  by exists d.
Qed.

Lemma sum_list_zero (l : list nat) :
  Forall (fun n => n = 0%nat) l -> sum_list l = 0%nat.
Proof. induction 1 as [|n l -> _ IH]; [done|]. cbn. exact IH. Qed.

(** On records that are all anchors the loop changes no date and counts
    nothing. *)
Lemma repaired_all_anchors asc records :
  Forall (fun rec => is_anchor rec = true) records ->
  map row_text (repaired asc records)
    = map (fun rec => original_date rec +:+ "," +:+ value rec) records
  /\ sum_list (increments asc records) = 0%nat.
Proof.
  intros Hall. rewrite Forall_lookup in Hall. split.
  - change (row_text <$> repaired asc records
            = (fun rec => original_date rec +:+ "," +:+ value rec) <$> records).
    apply list_eq. intros i. unfold repaired.
    rewrite !list_lookup_fmap, list_lookup_imap.
    destruct (records !! i) as [rec|] eqn:Hrec; [|done]. cbn [fmap option_fmap option_map].
    by rewrite (repair_row_anchor _ _ _ _ (Hall i rec Hrec)).
  - apply sum_list_zero, Forall_lookup. intros i n Hi.
    unfold increments in Hi. rewrite list_lookup_imap in Hi.
    destruct (records !! i) as [rec|] eqn:Hrec; [|done]. cbn in Hi.
    rewrite (repair_row_anchor _ _ _ _ (Hall i rec Hrec)) in Hi.
    by injection Hi as <-.
Qed.

Lemma process_csv_none content :
  snd (process_csv content) = None -> process_csv content = (0%nat, None).
Proof.
  unfold process_csv, repair_lines.
  destruct (Nat.ltb (length (read_lines content)) 2); [done|].
  destruct (read_lines content) as [|header data_lines]; [done|].
  destruct (first_anchor_in _ _); [|done].
  by destruct (repair_loop _ _).
Qed.

(** A file whose un-anchored rows lie between two anchors of the same valid
    year limit. *)
Definition edge_low_file : string := lines_text ("date,value" :: edge_low_lines).

(** C4, as stated, fails: the first run on [edge_low_file] repairs one row
    and leaves the row [x,b] without a usable year; the second run finds the
    new anchor below it, repairs that row and reports one repair. *)
Lemma C4_counterexample :
  process_csv edge_low_file
    = (1%nat,
       Some (lines_text ["date,value"; "1800-01-01,a"; "x,b";
                         "1801-12-30,c"; "1800-01-01,d"]))
  /\ process_csv (file_after edge_low_file)
     = (1%nat,
        Some (lines_text ["date,value"; "1800-01-01,a"; "1802-12-30,b";
                          "1801-12-30,c"; "1800-01-01,d"]))
  /\ fst (process_csv (file_after edge_low_file)) <> 0%nat
  /\ file_after (file_after edge_low_file) <> file_after edge_low_file.
Proof.
  split; [by vm_compute|]. split; [by vm_compute|].
  split; [by vm_compute|]. vm_compute. discriminate.
Qed.

(** * Further properties of the script *)

(** ** [parse_date] and [format_date] as inverses *)

Lemma decimal_value_bound c v : decimal_value c = Some v -> (v < 10)%N.
Proof.
  unfold decimal_value.
  destruct (List.find _ decimal_zeros) as [zero|] eqn:Hfind; [|done].
  intros [= <-]. apply find_some in Hfind as [_ Hzero].
  apply andb_true_iff in Hzero as [H1%N.leb_le H2%N.ltb_lt]. lia.
Qed.

Lemma digit_value_bound c : 0 <= digit_value c <= 9.
Proof.
  unfold digit_value. destruct (decimal_value c) as [v|] eqn:Hv; [|lia].
  apply decimal_value_bound in Hv. lia.
Qed.

Lemma int_of_four_bound a b c e : 0 <= int_of_digits [a; b; c; e] <= 9999.
Proof.
  unfold int_of_digits. cbn [fold_left].
  pose proof (digit_value_bound a). pose proof (digit_value_bound b).
  pose proof (digit_value_bound c). pose proof (digit_value_bound e). lia.
Qed.

Lemma int_of_two_bound a b : 0 <= int_of_digits [a; b] <= 99.
Proof.
  unfold int_of_digits. cbn [fold_left].
  pose proof (digit_value_bound a). pose proof (digit_value_bound b). lia.
Qed.

(** What a match gives: ten characters, or ten and a newline. *)
Lemma match_date_inv cs y m d :
  match_date cs = Some (y, m, d) ->
  exists y1 y2 y3 y4 m1 m2 d1 d2,
    (cs = [y1; y2; y3; y4; 45; m1; m2; 45; d1; d2]%N
     \/ cs = [y1; y2; y3; y4; 45; m1; m2; 45; d1; d2; 10]%N)
    /\ forallb is_digit [y1; y2; y3; y4; m1; m2; d1; d2] = true
    /\ y = int_of_digits [y1; y2; y3; y4]
    /\ m = int_of_digits [m1; m2]
    /\ d = int_of_digits [d1; d2].
Proof.
  unfold match_date.
  destruct cs as [|y1 [|y2 [|y3 [|y4 [|h1 [|m1 [|m2 [|h2 [|d1 [|d2 [|nl [|x cs]]]]]]]]]]]];
    try done.
  - destruct (_ && _ && _) eqn:Hc; [|done]. intros [= <- <- <-].
    apply andb_true_iff in Hc as [[Hd Hh1]%andb_true_iff Hh2].
    apply N.eqb_eq in Hh1 as ->. apply N.eqb_eq in Hh2 as ->.
    exists y1, y2, y3, y4, m1, m2, d1, d2. split; [by left|done].
  - destruct (N.eqb_spec nl 10) as [->|]; [|done].
    destruct (_ && _ && _) eqn:Hc; [|done]. intros [= <- <- <-].
    apply andb_true_iff in Hc as [[Hd Hh1]%andb_true_iff Hh2].
    apply N.eqb_eq in Hh1 as ->. apply N.eqb_eq in Hh2 as ->.
    exists y1, y2, y3, y4, m1, m2, d1, d2. split; [by right|done].
Qed.

Lemma parse_date_inv s y m d :
  parse_date s = Some (y, m, d) ->
  exists cs, decode_utf8 s = Some cs /\ match_date cs = Some (y, m, d).
Proof.
  unfold parse_date. destruct (decode_utf8 s) as [cs|]; [|done].
  destruct (_ || _); [done|]. intros H. by exists cs.
Qed.

Lemma parse_date_bounds s y m d :
  parse_date s = Some (y, m, d) ->
  0 <= y <= 9999 /\ 0 <= m <= 99 /\ 0 <= d <= 99.
Proof.
  intros (cs & _ & Hm)%parse_date_inv.
  apply match_date_inv in Hm
    as (y1 & y2 & y3 & y4 & m1 & m2 & d1 & d2 & _ & _ & -> & -> & ->).
  split; [apply int_of_four_bound|]. split; apply int_of_two_bound.
Qed.

Lemma format_date_parse_iff (year month day : Z) :
  parse_date (format_date year month day) = Some (year, month, day)
  <-> 0 <= year <= 9999 /\ 0 <= month <= 99 /\ 0 <= day <= 99.
Proof.
  split.
  - apply parse_date_bounds.
  - intros (Hy & Hm & Hd). by apply format_date_text.
Qed.

(** A text of ASCII characters only. *)
Definition is_ascii (s : string) : bool :=
  forallb (fun c => (byte c <? 128)%N) (String.list_ascii_of_string s).

Lemma decode_utf8_is_ascii s :
  is_ascii s = true ->
  decode_utf8 s = Some (map byte (String.list_ascii_of_string s)).
Proof.
  unfold is_ascii. induction s as [|c s IH]; [done|].
  cbn [String.list_ascii_of_string forallb map].
  intros [Hc Hs]%andb_true_iff.
  by rewrite (decode_utf8_ascii _ _ Hc), (IH Hs).
Qed.

Lemma byte_inj a b : byte a = byte b -> a = b.
Proof.
  unfold byte. intros H.
  by rewrite <- (ascii_N_embedding a), <- (ascii_N_embedding b), H.
Qed.

(** Among the ASCII characters the decimal digits are 0 to 9. *)
Lemma ascii_digits_checked :
  forallb (fun n => let c := ascii_of_nat n in
                    implb ((byte c <? 128)%N && is_digit (byte c))
                          (ascii_digit c))
          (seq 0 256) = true.
Proof. by vm_compute. Qed.

Lemma is_digit_ascii c :
  (byte c <? 128)%N = true -> is_digit (byte c) = true -> ascii_digit c = true.
Proof.
  intros Hb Hd. pose proof ascii_digits_checked as Hall.
  rewrite forallb_forall in Hall.
  specialize (Hall (nat_of_ascii c)). cbn zeta in Hall.
  rewrite ascii_nat_embedding, Hb, Hd in Hall. apply Hall.
  apply in_seq. pose proof (nat_ascii_bounded c). lia.
Qed.

(** The ASCII digits. *)
Definition digits : list ascii := map ascii_of_nat (seq 48 10).

Lemma ascii_digit_in c : ascii_digit c = true -> In c digits.
Proof.
  unfold ascii_digit, byte. intros [H1 H2]%andb_true_iff.
  apply N.leb_le in H1, H2.
  rewrite <- (ascii_nat_embedding c). apply in_map, in_seq.
  unfold nat_of_ascii. lia.
Qed.

(** Four digits are what [format_d 4] writes for the number they read as. *)
Definition reads4 (a b c e : ascii) : bool :=
  String.eqb (format_d 4 (int_of_digits [byte a; byte b; byte c; byte e]))
             (String a (String b (String c (String e "")))).

Definition reads2 (a b : ascii) : bool :=
  String.eqb (format_d 2 (int_of_digits [byte a; byte b]))
             (String a (String b "")).

Lemma reads4_all :
  forallb (fun a => forallb (fun b => forallb (fun c =>
    forallb (fun e => reads4 a b c e) digits) digits) digits) digits = true.
Proof. by vm_compute. Qed.

Lemma reads2_all :
  forallb (fun a => forallb (fun b => reads2 a b) digits) digits = true.
Proof. by vm_compute. Qed.

Lemma reads4_digits a b c e :
  ascii_digit a = true -> ascii_digit b = true ->
  ascii_digit c = true -> ascii_digit e = true ->
  format_d 4 (int_of_digits [byte a; byte b; byte c; byte e])
    = String a (String b (String c (String e ""))).
Proof.
  intros Ha Hb Hc He. pose proof reads4_all as Hall.
  rewrite forallb_forall in Hall. specialize (Hall a (ascii_digit_in a Ha)).
  rewrite forallb_forall in Hall. specialize (Hall b (ascii_digit_in b Hb)).
  rewrite forallb_forall in Hall. specialize (Hall c (ascii_digit_in c Hc)).
  rewrite forallb_forall in Hall. specialize (Hall e (ascii_digit_in e He)).
  by apply String.eqb_eq in Hall.
Qed.

Lemma reads2_digits a b :
  ascii_digit a = true -> ascii_digit b = true ->
  format_d 2 (int_of_digits [byte a; byte b]) = String a (String b "").
Proof.
  intros Ha Hb. pose proof reads2_all as Hall.
  rewrite forallb_forall in Hall. specialize (Hall a (ascii_digit_in a Ha)).
  rewrite forallb_forall in Hall. specialize (Hall b (ascii_digit_in b Hb)).
  by apply String.eqb_eq in Hall.
Qed.

(** An ASCII text that [parse_date] accepts is the text of [format_date],
    or that text and a newline. *)
Lemma parse_date_ascii s y m d :
  is_ascii s = true ->
  parse_date s = Some (y, m, d) ->
  s = format_date y m d \/ s = format_date y m d +:+ NL.
Proof.
  intros Hascii (cs & Hdec & Hm)%parse_date_inv.
  rewrite (decode_utf8_is_ascii s Hascii) in Hdec. injection Hdec as <-.
  apply match_date_inv in Hm
    as (y1 & y2 & y3 & y4 & m1 & m2 & d1 & d2 & Hcs & Hd & -> & -> & ->).
  unfold is_ascii in Hascii.
  destruct s as [|c1 [|c2 [|c3 [|c4 [|h1 [|c5 [|c6 [|h2 [|c7 [|c8 [|nl [|x s]]]]]]]]]]]];
    cbn [String.list_ascii_of_string map] in Hcs;
    destruct Hcs as [Hcs|Hcs]; simplify_eq;
    repeat match goal with
           | H : byte ?c = 45%N |- _ => apply (byte_inj c "-") in H; subst c
           | H : byte ?c = 10%N |- _ => apply (byte_inj c LF) in H; subst c
           end;
    cbn [String.list_ascii_of_string forallb] in Hascii, Hd;
    repeat match goal with
           | H : _ && _ = true |- _ => apply andb_true_iff in H as [? ?]
           end;
    unfold format_date;
    rewrite reads4_digits, !reads2_digits by (by apply is_digit_ascii);
    [by left|by right].
Qed.

(** X1: a string that [parse_date] accepts gives a year in [0, 9999] and a
    month and a day in [0, 99], and [format_date] writes for them a text
    that [parse_date] reads back as the same date: the ASCII form of the
    string (the pattern also accepts the other decimal digits of Unicode,
    as in 197١-05-06).  When the string is ASCII it is that text itself, or
    that text followed by one newline (the [$] of the pattern also matches
    before a final newline). *)
Theorem X1_parse_date_round_trip (date_str : string) (year month day : Z) :
  parse_date date_str = Some (year, month, day) ->
  0 <= year <= 9999 /\ 0 <= month <= 99 /\ 0 <= day <= 99
  /\ parse_date (format_date year month day) = Some (year, month, day)
  /\ (is_ascii date_str = true ->
      date_str = format_date year month day
      \/ date_str = format_date year month day +:+ NL).
Proof.
  intros Hparse. pose proof (parse_date_bounds _ _ _ _ Hparse) as (Hy & Hm & Hd).
  split; [done|]. split; [done|]. split; [done|]. split.
  - by apply format_date_parse_iff.
  - intros Hascii. by apply parse_date_ascii.
Qed.

(** The date 197١-05-06, with the Arabic-Indic digit one (U+0661). *)
Definition arabic_indic_date : string :=
  "197" +:+ String (ascii_of_nat 217) (String (ascii_of_nat 161) "-05-06").

Lemma X1_witness :
  0 <= 1971 <= 9999 /\ 0 <= 5 <= 99 /\ 0 <= 6 <= 99
  /\ parse_date (format_date 1971 5 6) = Some (1971, 5, 6)
  /\ (is_ascii arabic_indic_date = true ->
      arabic_indic_date = format_date 1971 5 6
      \/ arabic_indic_date = format_date 1971 5 6 +:+ NL).
Proof.
  apply (X1_parse_date_round_trip arabic_indic_date 1971 5 6).
  reflexivity.
Defined.

(** X2: [parse_date] reads back what [format_date] writes exactly when the
    year is in [0, 9999] and the month and the day are in [0, 99]: outside
    these ranges the text written has a sign or more digits than the pattern
    allows. *)
Theorem X2_format_date_round_trip (year month day : Z) :
  parse_date (format_date year month day) = Some (year, month, day)
  <-> 0 <= year <= 9999 /\ 0 <= month <= 99 /\ 0 <= day <= 99.
Proof.
  apply format_date_parse_iff.
Qed.

Lemma X2_witness :
  parse_date (format_date 9999 99 0) = Some (9999, 99, 0)
  <-> 0 <= 9999 <= 9999 /\ 0 <= 99 <= 99 /\ 0 <= 0 <= 99.
Proof. apply (X2_format_date_round_trip 9999 99 0). Defined.

(** ** The inferred year on a yearly sequence *)

(** A list with an anchor has a first and a last anchor. *)
Lemma first_last_anchor records a ya :
  anchor_at records a ya ->
  exists f yf l yl,
    anchor_at records f yf
    /\ (forall k, (k < f)%nat -> no_anchor_at records k)
    /\ anchor_at records l yl
    /\ (forall k, (l < k)%nat -> no_anchor_at records k)
    /\ (f <= a <= l)%nat.
Proof.
  intros Hat.
  assert (a < length records)%nat as Ha.
  { destruct Hat as (rec & Hrec & _). by eapply lookup_lt_Some. }
  pose proof (scan_up_spec records 0 (length records)) as Hup.
  pose proof (scan_prev_spec records (length records)) as Hdown.
  destruct (first_anchor_in records (seq 0 (length records))) as [[f yf]|];
    [|exfalso; eapply anchor_at_not; [exact Hat|]; apply Hup; lia].
  destruct (first_anchor_in records (range_down (length records))) as [[l yl]|];
    [|exfalso; eapply anchor_at_not; [exact Hat|]; by apply Hdown].
  destruct Hup as (Hf & Hatf & Hbefore), Hdown as (Hl & Hatl & Hafter).
  exists f, yf, l, yl. split; [done|]. split; [intros k Hk; apply Hbefore; lia|].
  split; [done|]. split.
  - intros k Hk. destruct (decide (k < length records)%nat).
    + apply Hafter. lia.
    + apply no_anchor_beyond. lia.
  - split.
    + destruct (decide (f <= a)%nat); [done|]. exfalso.
      eapply anchor_at_not; [exact Hat|]. apply Hbefore. lia.
    + destruct (decide (a <= l)%nat); [done|]. exfalso.
      eapply anchor_at_not; [exact Hat|]. apply Hafter. lia.
Qed.

(** The direction, from the first and the last anchor. *)
Lemma ascending_first_last records f yf l yl :
  anchor_at records f yf ->
  (forall k, (k < f)%nat -> no_anchor_at records k) ->
  anchor_at records l yl ->
  (forall k, (l < k)%nat -> no_anchor_at records k) ->
  ascending records = Nat.eqb f l || (yf <? yl).
Proof.
  intros Hf Hbefore Hl Hafter. unfold ascending.
  destruct (valid_years_first _ _ _ Hf Hbefore) as (rest & Hvy & Hrest).
  pose proof (valid_years_last _ _ _ Hl Hafter) as Hlast.
  rewrite Hvy in Hlast |- *.
  destruct (Nat.eqb_spec f l) as [<-|Hne]; cbn [orb].
  - destruct rest as [|z zs]; [done|]. exfalso.
    destruct (proj1 Hrest ltac:(done)) as (j & y' & Hj & Hat).
    eapply anchor_at_not; [exact Hat|]. by apply Hafter.
  - assert (rest <> []) as Hnonempty.
    { apply Hrest. exists l, yl. split; [|done].
      destruct (lt_eq_lt_dec f l) as [[?|?]|Hgt]; [done|done|].
      exfalso. eapply anchor_at_not; [exact Hf|]. by apply Hafter. }
    destruct rest as [|z zs]; [done|].
    cbn [length Nat.leb List.hd]. by rewrite Hlast.
Qed.

(** With an anchor elsewhere in the list, a row has an inferred year. *)
Lemma infer_year_some records asc i a ya :
  anchor_at records a ya -> a <> i ->
  exists y, infer_year records asc i = Some y.
Proof.
  intros Hat Hne. unfold infer_year.
  pose proof (scan_prev_spec records i) as Hprev.
  pose proof (scan_next_spec records i) as Hnext.
  destruct (first_anchor_in records (range_down i)) as [[p yp]|],
           (first_anchor_in records (range (i + 1) (length records)))
             as [[n yn]|].
  - destruct (distance_le _ _), asc; by eexists.
  - destruct asc; by eexists.
  - cbn [distance_le]. destruct asc; by eexists.
  - exfalso. eapply anchor_at_not; [exact Hat|].
    destruct (lt_eq_lt_dec a i) as [[?|?]|?]; [by apply Hprev|done|by apply Hnext].
Qed.

(** When the years of the anchors follow their rows by one year per row, in
    the direction [asc], the inferred year of a row follows too, whichever
    anchor it is projected from. *)
Lemma infer_year_sequence records (asc : bool) (y0 : Z) i a ya :
  anchor_at records a ya -> a <> i ->
  (forall j y, anchor_at records j y ->
               y = if asc then y0 + Z.of_nat j else y0 - Z.of_nat j) ->
  infer_year records asc i
    = Some (if asc then y0 + Z.of_nat i else y0 - Z.of_nat i).
Proof.
  intros Hat Hne Hseq. unfold infer_year.
  pose proof (scan_prev_spec records i) as Hprev.
  pose proof (scan_next_spec records i) as Hnext.
  destruct (first_anchor_in records (range_down i)) as [[p yp]|],
           (first_anchor_in records (range (i + 1) (length records)))
             as [[n yn]|].
  - destruct Hprev as (_ & Hp & _), Hnext as (_ & Hn & _).
    apply Hseq in Hp, Hn. destruct (distance_le _ _), asc; f_equal; lia.
  - destruct Hprev as (_ & Hp & _). apply Hseq in Hp.
    destruct asc; f_equal; lia.
  - destruct Hnext as (_ & Hn & _). apply Hseq in Hn.
    cbn [distance_le]. destruct asc; f_equal; lia.
  - exfalso. eapply anchor_at_not; [exact Hat|].
    destruct (lt_eq_lt_dec a i) as [[?|?]|?]; [by apply Hprev|done|by apply Hnext].
Qed.

Lemma anchor_at_is_anchor records i rec y :
  records !! i = Some rec -> anchor_at records i y -> is_anchor rec = true.
Proof.
  intros Hrec (rec' & Hrec' & Hy). simplify_eq. apply is_anchor_true. by exists y.
Qed.

(** The row written for a corrupted row whose inferred year is usable. *)
Lemma repair_loop_repaired records asc i rec y :
  records !! i = Some rec -> is_anchor rec = false ->
  infer_year records asc i = Some y -> 1800 <= y <= 2100 ->
  fst (repair_loop asc records) !! i
    = Some (set_fixed_date rec
              (format_date y (fst (month_day rec)) (snd (month_day rec)))).
Proof.
  intros Hrec Hcorrupt Hinfer Hy.
  rewrite (repair_loop_lookup _ _ _ _ Hrec).
  rewrite (repair_row_repaired _ _ _ _ y); [done|done|].
  rewrite Hinfer. apply usable_year_Some. split; [done|lia].
Qed.

(** X3: in a file whose anchors follow an ascending yearly sequence, the
    anchor of row [j] having the year [y0 + j], every corrupted row [i] is
    given the year [y0 + i] of the sequence, whichever anchor is the nearest
    and even with a single anchor; when that year is in [1800, 2100] the row
    is written with it, with the month and the day of [month_day]. *)
Theorem X3_ascending_sequence_recovered
    (records : list record) (y0 : Z) (a : nat) (ya : Z) (i : nat) (rec : record) :
  anchor_at records a ya ->
  (forall j y, anchor_at records j y -> y = y0 + Z.of_nat j) ->
  records !! i = Some rec ->
  is_anchor rec = false ->
  ascending records = true
  /\ infer_year records (ascending records) i = Some (y0 + Z.of_nat i)
  /\ (1800 <= y0 + Z.of_nat i <= 2100 ->
      fst (repair_loop (ascending records) records) !! i
        = Some (set_fixed_date rec
                  (format_date (y0 + Z.of_nat i)
                     (fst (month_day rec)) (snd (month_day rec))))).
Proof.
  intros Hat Hseq Hrec Hcorrupt.
  assert (ascending records = true) as Hasc.
  { destruct (first_last_anchor _ _ _ Hat)
      as (f & yf & l & yl & Hf & Hbefore & Hl & Hafter & Hfl).
    rewrite (ascending_first_last _ _ _ _ _ Hf Hbefore Hl Hafter).
    apply Hseq in Hf, Hl. destruct (Nat.eqb_spec f l); [done|].
    cbn [orb]. apply Z.ltb_lt. lia. }
  assert (a <> i) as Hne.
  { intros ->. pose proof (anchor_at_is_anchor _ _ _ _ Hrec Hat). congruence. }
  assert (infer_year records (ascending records) i = Some (y0 + Z.of_nat i))
    as Hinfer.
  { rewrite Hasc. apply (infer_year_sequence records true y0 i a ya); done. }
  split; [done|]. split; [done|]. intros Hy.
  by apply repair_loop_repaired.
Qed.

Lemma X3_witness :
  ascending (parse_records month_zero_lines) = true
  /\ infer_year (parse_records month_zero_lines)
       (ascending (parse_records month_zero_lines)) 1 = Some (1970 + 1)
  /\ (1800 <= 1970 + 1 <= 2100 ->
      fst (repair_loop (ascending (parse_records month_zero_lines))
             (parse_records month_zero_lines)) !! 1%nat
        = Some {| original_date := "0971-00-15"; parsed := Some (971, 0, 15);
                  value := "a"; fixed_date := Some (format_date (1970 + 1) 12 15) |}).
Proof.
  apply (X3_ascending_sequence_recovered
           (parse_records month_zero_lines) 1970 0 1970 1
           {| original_date := "0971-00-15"; parsed := Some (971, 0, 15);
              value := "a"; fixed_date := None |}).
  - eexists. split; reflexivity.
  - intros j y (r & Hj & Hy).
    destruct j as [|[|[|[|j]]]]; cbn in Hj; simplify_eq; try done;
      vm_compute in Hy; by simplify_eq.
  - reflexivity.
  - reflexivity.
Defined.

(** X4: in a file with at least two anchors whose years follow a descending
    yearly sequence, the anchor of row [j] having the year [y0 - j], the
    direction is descending and every corrupted row [i] is given the year
    [y0 - i]; when that year is in [1800, 2100] the row is written with it. *)
Theorem X4_descending_sequence_recovered
    (records : list record) (y0 : Z) (a b : nat) (ya yb : Z)
    (i : nat) (rec : record) :
  anchor_at records a ya ->
  anchor_at records b yb ->
  a <> b ->
  (forall j y, anchor_at records j y -> y = y0 - Z.of_nat j) ->
  records !! i = Some rec ->
  is_anchor rec = false ->
  ascending records = false
  /\ infer_year records (ascending records) i = Some (y0 - Z.of_nat i)
  /\ (1800 <= y0 - Z.of_nat i <= 2100 ->
      fst (repair_loop (ascending records) records) !! i
        = Some (set_fixed_date rec
                  (format_date (y0 - Z.of_nat i)
                     (fst (month_day rec)) (snd (month_day rec))))).
Proof.
  intros Hat Hbt Hab Hseq Hrec Hcorrupt.
  assert (ascending records = false) as Hasc.
  { destruct (first_last_anchor _ _ _ Hat)
      as (f & yf & l & yl & Hf & Hbefore & Hl & Hafter & Hfl).
    rewrite (ascending_first_last _ _ _ _ _ Hf Hbefore Hl Hafter).
    assert (f <= b <= l)%nat as Hb.
    { split.
      - destruct (decide (f <= b)%nat); [done|]. exfalso.
        eapply anchor_at_not; [exact Hbt|]. apply Hbefore. lia.
      - destruct (decide (b <= l)%nat); [done|]. exfalso.
        eapply anchor_at_not; [exact Hbt|]. apply Hafter. lia. }
    apply Hseq in Hf, Hl. destruct (Nat.eqb_spec f l); [lia|].
    cbn [orb]. apply Z.ltb_ge. lia. }
  assert (a <> i) as Hne.
  { intros ->. pose proof (anchor_at_is_anchor _ _ _ _ Hrec Hat). congruence. }
  assert (infer_year records (ascending records) i = Some (y0 - Z.of_nat i))
    as Hinfer.
  { rewrite Hasc. apply (infer_year_sequence records false y0 i a ya); done. }
  split; [done|]. split; [done|]. intros Hy.
  by apply repair_loop_repaired.
Qed.

(** A descending yearly file: anchors 1973 and 1971 around a corrupted row. *)
Definition descending_lines : list string :=
  ["1973-01-01,1"; "x,2"; "1971-06-30,3"].

Lemma X4_witness :
  ascending (parse_records descending_lines) = false
  /\ infer_year (parse_records descending_lines)
       (ascending (parse_records descending_lines)) 1 = Some (1973 - 1)
  /\ (1800 <= 1973 - 1 <= 2100 ->
      fst (repair_loop (ascending (parse_records descending_lines))
             (parse_records descending_lines)) !! 1%nat
        = Some {| original_date := "x"; parsed := None; value := "2";
                  fixed_date := Some (format_date (1973 - 1) 12 30) |}).
Proof.
  apply (X4_descending_sequence_recovered
           (parse_records descending_lines) 1973 0 2 1973 1971 1
           {| original_date := "x"; parsed := None; value := "2";
              fixed_date := None |}).
  - eexists. split; reflexivity.
  - eexists. split; reflexivity.
  - lia.
  - intros j y (r & Hj & Hy).
    destruct j as [|[|[|j]]]; cbn in Hj; simplify_eq; try done;
      vm_compute in Hy; by simplify_eq.
  - reflexivity.
  - reflexivity.
Defined.

(** X5: in a list with an anchor every corrupted row has an inferred year
    (the [None] of line 120 never reaches the test of line 140), so the row
    is repaired and counted when that year is in [1800, 2100], and is kept
    verbatim and not counted only when it is outside. *)
Theorem X5_corrupted_row_outcome
    (records : list record) (asc : bool) (a : nat) (ya : Z)
    (i : nat) (rec : record) :
  anchor_at records a ya ->
  records !! i = Some rec ->
  is_anchor rec = false ->
  exists y,
    infer_year records asc i = Some y
    /\ (1800 <= y <= 2100 ->
        repair_row records asc i rec
          = (set_fixed_date rec
               (format_date y (fst (month_day rec)) (snd (month_day rec))),
             1%nat))
    /\ (~ 1800 <= y <= 2100 ->
        repair_row records asc i rec
          = (set_fixed_date rec (original_date rec), 0%nat)).
Proof.
  intros Hat Hrec Hcorrupt.
  assert (a <> i) as Hne.
  { intros ->. pose proof (anchor_at_is_anchor _ _ _ _ Hrec Hat). congruence. }
  destruct (infer_year_some records asc i a ya Hat Hne) as [y Hy].
  exists y. split; [done|]. split.
  - intros Hin. apply repair_row_repaired; [done|].
    rewrite Hy. apply usable_year_Some. split; [done|lia].
  - intros Hout. apply repair_row_verbatim; [done|].
    rewrite Hy. apply usable_year_None. right.
    destruct (decide (y = 0)) as [->|]; [by left|]. right. exists y.
    split; [done|lia].
Qed.

Lemma X5_witness :
  exists y,
    infer_year (parse_records edge_high_lines) true 1 = Some y
    /\ (1800 <= y <= 2100 ->
        repair_row (parse_records edge_high_lines) true 1
          {| original_date := "zzz"; parsed := None; value := "b";
             fixed_date := None |}
          = ({| original_date := "zzz"; parsed := None; value := "b";
                fixed_date := Some (format_date y 12 30) |}, 1%nat))
    /\ (~ 1800 <= y <= 2100 ->
        repair_row (parse_records edge_high_lines) true 1
          {| original_date := "zzz"; parsed := None; value := "b";
             fixed_date := None |}
          = ({| original_date := "zzz"; parsed := None; value := "b";
                fixed_date := Some "zzz" |}, 0%nat)).
Proof.
  apply (X5_corrupted_row_outcome (parse_records edge_high_lines) true 0 2100 1
           {| original_date := "zzz"; parsed := None; value := "b";
              fixed_date := None |}).
  - eexists. split; reflexivity.
  - reflexivity.
  - reflexivity.
Defined.

(** ** What a run leaves for the next run *)

(** The records that [process_csv] builds from a file. *)
Definition records_of (content : string) : list record :=
  parse_records (tail (read_lines content)).

Lemma parse_records_fixed_none data_lines :
  Forall (fun rec => fixed_date rec = None) (parse_records data_lines).
Proof.
  induction data_lines as [|line rest IH]; cbn [parse_records]; [constructor|].
  destruct (split COMMA line) as [|d [|p t]]; try done. by constructor.
Qed.

(** A record of the input against its record after the loop, as the next
    run reads it, and what the row added to the count: either nothing was
    counted and the record is read again as it was, or the row was counted,
    was no anchor, and is read again as an anchor with another date. *)
Definition row_rel (rec : record) (out : record * nat) : Prop :=
  (out.2 = 0%nat /\ reread out.1 = rec)
  \/ (out.2 = 1%nat /\ is_anchor rec = false
      /\ is_anchor (reread out.1) = true
      /\ original_date (reread out.1) <> original_date rec
      /\ value (reread out.1) = value rec).

Lemma reread_verbatim rec :
  parsed rec = parse_date (original_date rec) -> fixed_date rec = None ->
  reread (set_fixed_date rec (original_date rec)) = rec.
Proof.
  destruct rec as [d p v f]. cbn. intros -> ->. reflexivity.
Qed.

Lemma repair_row_rel records asc i rec :
  clean_fields rec -> fixed_date rec = None ->
  row_rel rec (repair_row records asc i rec).
Proof.
  intros (_ & _ & _ & Hparsed) Hnone.
  destruct (repair_row_cases records asc i rec)
    as [[_ ->]|[(_ & _ & ->)|(y & Hcorrupt & Hu & ->)]].
  - left. split; [done|]. by apply reread_verbatim.
  - left. split; [done|]. by apply reread_verbatim.
  - right. split; [done|]. split; [done|].
    apply usable_year_Some in Hu as (_ & _ & Hy).
    destruct (month_day_range rec) as [Hm Hd].
    destruct (format_date_valid y _ _ Hy Hm Hd) as (Hback & _ & _).
    cbn [fst snd]. unfold reread. cbn [fixed_date set_fixed_date].
    split; [|split; [|done]].
    + unfold is_anchor, anchor_year. cbn [parsed]. rewrite Hback.
      unfold is_valid_year.
      destruct (Z.leb_spec 1800 y), (Z.leb_spec y 2100); cbn; first [done|lia].
    + cbn [original_date]. intros Heq.
      rewrite <- Heq, Hback in Hparsed.
      unfold is_anchor, anchor_year in Hcorrupt. rewrite Hparsed in Hcorrupt.
      unfold is_valid_year in Hcorrupt.
      destruct (Z.leb_spec 1800 y), (Z.leb_spec y 2100); cbn in Hcorrupt;
        first [done|lia].
Qed.

Definition date_changed (p : record * record) : bool :=
  negb (String.eqb (original_date p.1) (original_date p.2)).

(** Counting over the rows of a loop whose rows satisfy [row_rel]. *)
Lemma rows_count (F : nat -> record -> record * nat) (l : list record) :
  (forall i x, l !! i = Some x -> row_rel x (F i x)) ->
  let l2 := reread <$> imap (fun i x => (F i x).1) l in
  let incs := imap (fun i x => (F i x).2) l in
  sum_list incs = length (List.filter date_changed (zip l l2))
  /\ length (List.filter is_anchor l2)
     = (length (List.filter is_anchor l) + sum_list incs)%nat
  /\ value <$> l2 = value <$> l
  /\ (sum_list incs = 0%nat -> l2 = l).
Proof.
  revert F. induction l as [|x l IH]; intros F Hrows; [done|].
  cbn zeta. rewrite !imap_cons, fmap_cons.
  destruct (IH (fun i => F (S i))) as (IH1 & IH2 & IH3 & IH4).
  { intros i y Hy. by apply (Hrows (S i)). }
  cbn zeta in IH1, IH2, IH3, IH4.
  change ((fun i x0 => (F i x0).1) ∘ S) with (fun i x0 => (F (S i) x0).1).
  change ((fun i x0 => (F i x0).2) ∘ S) with (fun i x0 => (F (S i) x0).2).
  set (l2 := reread <$> imap (fun i x0 => (F (S i) x0).1) l) in *.
  set (incs := imap (fun i x0 => (F (S i) x0).2) l) in *.
  cbn [sum_list sum_list_with zip zip_with List.filter fmap list_fmap].
  change (zip_with pair l l2) with (zip l l2).
  unfold date_changed at 1. cbn [fst snd].
  destruct (Hrows 0%nat x eq_refl) as [[H0 Hsame]|(H1 & Hcorrupt & Hanchor & Hdate & Hvalue)].
  - rewrite H0, Hsame, String.eqb_refl. cbn [negb id].
    repeat split.
    + exact IH1.
    + destruct (is_anchor x); cbn [length]; lia.
    + by rewrite IH3.
    + intros Hz. by rewrite IH4.
  - rewrite H1, Hanchor, Hcorrupt.
    assert (String.eqb (original_date x) (original_date (reread (F 0%nat x).1))
            = false) as ->.
    { apply String.eqb_neq. congruence. }
    cbn [negb length id]. repeat split.
    + by rewrite IH1.
    + lia.
    + by rewrite Hvalue, IH3.
    + intros Hz. lia.
Qed.

(** A run that writes, in terms of the records of the file before and
    after. *)
Lemma process_csv_records content fixed_count written :
  process_csv content = (fixed_count, Some written) ->
  let records := records_of content in
  let asc := ascending records in
  exists header,
    read_lines written = header :: map row_text (repaired asc records)
    /\ records_of written = reread <$> repaired asc records
    /\ fixed_count = sum_list (increments asc records)
    /\ written = write_csv header (repaired asc records)
    /\ (exists i y, anchor_at records i y)
    /\ (forall i x, records !! i = Some x ->
                    row_rel x (repair_row records asc i x)).
Proof.
  intros Hrun. cbn zeta. unfold records_of.
  destruct (process_csv_inv _ _ _ Hrun)
    as (header & data_lines & Hread & Hanchor & Hcount & Hw & Hlines).
  destruct (read_lines_fields _ _ _ Hread) as [_ Hfields].
  rewrite Hread, Hlines. cbn [tail]. exists header.
  split; [done|]. split; [|split; [done|split; [done|split; [done|]]]].
  - by apply parse_records_rows, repaired_fixed.
  - intros i x Hx. apply repair_row_rel.
    + rewrite Forall_lookup in Hfields. by apply (Hfields i).
    + pose proof (parse_records_fixed_none data_lines) as Hnone.
      rewrite Forall_lookup in Hnone. by apply (Hnone i).
Qed.

Lemma process_csv_counts content fixed_count written :
  process_csv content = (fixed_count, Some written) ->
  fixed_count
    = length (List.filter date_changed
                (zip (records_of content) (records_of written)))
  /\ length (List.filter is_anchor (records_of written))
     = (length (List.filter is_anchor (records_of content)) + fixed_count)%nat
  /\ value <$> records_of written = value <$> records_of content
  /\ (fixed_count = 0%nat -> records_of written = records_of content).
Proof.
  intros Hrun.
  destruct (process_csv_records _ _ _ Hrun)
    as (header & _ & Hafter & -> & _ & _ & Hrows).
  rewrite Hafter.
  exact (rows_count
           (fun i x => repair_row (records_of content)
                         (ascending (records_of content)) i x)
           (records_of content) Hrows).
Qed.

(** X6: the count returned by a run that rewrites the file is the number of
    records whose date field differs between the file read and the file
    written; the run keeps the number of records and the value of each. *)
Theorem X6_count_is_changed_dates
    (content : string) (fixed_count : nat) (written : string) :
  process_csv content = (fixed_count, Some written) ->
  length (records_of written) = length (records_of content)
  /\ fixed_count
     = length (List.filter date_changed
                 (zip (records_of content) (records_of written)))
  /\ value <$> records_of written = value <$> records_of content.
Proof.
  intros Hrun.
  destruct (process_csv_counts _ _ _ Hrun) as (Hcount & _ & Hvalues & _).
  split; [|done].
  by rewrite <- (length_fmap value (records_of written)), Hvalues, length_fmap.
Qed.

Lemma X6_witness :
  length (records_of
            (lines_text ["date,value"; "1970-01-01,1"; "1971-12-15,a";
                         "1972-12-30,b"; "1973-01-01,1"]))
    = length (records_of (lines_text ("date,value" :: month_zero_lines)))
  /\ 2%nat
     = length (List.filter date_changed
                 (zip (records_of (lines_text ("date,value" :: month_zero_lines)))
                      (records_of
                         (lines_text ["date,value"; "1970-01-01,1";
                                      "1971-12-15,a"; "1972-12-30,b";
                                      "1973-01-01,1"]))))
  /\ value <$> records_of
                 (lines_text ["date,value"; "1970-01-01,1"; "1971-12-15,a";
                              "1972-12-30,b"; "1973-01-01,1"])
     = value <$> records_of (lines_text ("date,value" :: month_zero_lines)).
Proof.
  apply (X6_count_is_changed_dates
           (lines_text ("date,value" :: month_zero_lines)) 2).
  by vm_compute.
Defined.

(** X7: every row counted by a run is an anchor for the next one, and no
    anchor is lost: the file written has as many anchors as the file read
    plus the count returned. *)
Theorem X7_anchors_grow_by_count
    (content : string) (fixed_count : nat) (written : string) :
  process_csv content = (fixed_count, Some written) ->
  length (List.filter is_anchor (records_of written))
    = (length (List.filter is_anchor (records_of content)) + fixed_count)%nat.
Proof.
  intros Hrun. by destruct (process_csv_counts _ _ _ Hrun) as (_ & H & _).
Qed.

Lemma X7_witness :
  length (List.filter is_anchor
            (records_of
               (lines_text ["date,value"; "1800-01-01,a"; "x,b";
                            "1801-12-30,c"; "1800-01-01,d"])))
    = (length (List.filter is_anchor (records_of edge_low_file)) + 1)%nat.
Proof.
  apply (X7_anchors_grow_by_count edge_low_file 1). by vm_compute.
Defined.

(** The run on a file that a run has written. *)
Lemma process_csv_again content fixed_count written :
  process_csv content = (fixed_count, Some written) ->
  exists header,
    written = write_csv header
                (repaired (ascending (records_of content)) (records_of content))
    /\ process_csv written
       = (sum_list (increments (ascending (records_of written))
                               (records_of written)),
          Some (write_csv header
                  (repaired (ascending (records_of written))
                            (records_of written)))).
Proof.
  intros Hrun.
  destruct (process_csv_records _ _ _ Hrun)
    as (header & Hlines & Hafter & _ & Hw & (j & y & Hat) & Hrows).
  exists header. split; [done|].
  assert (exists j' y', anchor_at (records_of written) j' y') as (j' & y' & Hat').
  { destruct (process_csv_counts _ _ _ Hrun) as (_ & Hanchors & _).
    destruct Hat as (rec & Hrec & Hy).
    assert (List.filter is_anchor (records_of content) <> []) as Hne.
    { intros Hnil.
      assert (In rec (List.filter is_anchor (records_of content))) as Hin.
      { apply filter_In. split.
        - apply list_elem_of_In. by eapply list_elem_of_lookup_2.
        - apply is_anchor_true. by exists y. }
      by rewrite Hnil in Hin. }
    destruct (List.filter is_anchor (records_of written)) as [|rec' rest] eqn:Hf.
    { destruct (List.filter is_anchor (records_of content)); [done|].
      cbn in Hanchors. lia. }
    assert (In rec' (List.filter is_anchor (records_of written))) as Hin
      by (rewrite Hf; by left).
    apply filter_In in Hin as [Hin Hanchor].
    apply list_elem_of_In, list_elem_of_lookup in Hin as [j' Hj'].
    apply is_anchor_true in Hanchor as [y' Hy'].
    exists j', y', rec'. done. }
  unfold records_of in Hat' |- *. rewrite Hlines in Hat' |- *.
  cbn [tail] in Hat' |- *.
  by apply (process_csv_run written header _ j' y').
Qed.

Lemma zero_run_stable content written :
  process_csv content = (0%nat, Some written) ->
  process_csv written = (0%nat, Some written).
Proof.
  intros Hrun.
  destruct (process_csv_again _ _ _ Hrun) as (header & Hw & ->).
  destruct (process_csv_counts _ _ _ Hrun) as (_ & _ & _ & Hsame).
  rewrite (Hsame eq_refl).
  destruct (process_csv_records _ _ _ Hrun) as (_ & _ & _ & <- & _).
  by rewrite <- Hw.
Qed.

(** X8: a run that rewrites the file and returns 0 leaves a file on which
    the next run returns 0 and writes the same text again. *)
Theorem X8_zero_run_is_stable (content : string) (written : string) :
  process_csv content = (0%nat, Some written) ->
  process_csv written = (0%nat, Some written).
Proof. apply zero_run_stable. Qed.

Lemma X8_witness :
  process_csv (lines_text ["date,value"; "1970-01-01,1"; "1971-01-01,2"])
  = (0%nat,
     Some (lines_text ["date,value"; "1970-01-01,1"; "1971-01-01,2"])).
Proof.
  apply (X8_zero_run_is_stable bare_line_file). by vm_compute.
Defined.

(** ** Repeated runs *)

(** The file after [n] runs of [process_csv] on it. *)
Definition runs (n : nat) (content : string) : string :=
  Nat.iter n file_after content.

(** The number of records of a file that are no anchors. *)
Definition corrupted (content : string) : nat :=
  length (List.filter (fun rec => negb (is_anchor rec)) (records_of content)).

Lemma filter_split_length {A} (f : A -> bool) (l : list A) :
  (length (List.filter f l) + length (List.filter (fun x => negb (f x)) l))%nat
  = length l.
Proof.
  induction l as [|x l IH]; [done|]. cbn [List.filter].
  destruct (f x); cbn [negb length]; lia.
Qed.

Lemma corrupted_after content fixed_count written :
  process_csv content = (fixed_count, Some written) ->
  (corrupted written + fixed_count)%nat = corrupted content.
Proof.
  intros Hrun. unfold corrupted.
  destruct (process_csv_counts _ _ _ Hrun) as (_ & Hanchors & Hvalues & _).
  assert (length (records_of written) = length (records_of content)) as Hlen.
  { by rewrite <- (length_fmap value (records_of written)), Hvalues, length_fmap. }
  pose proof (filter_split_length is_anchor (records_of written)).
  pose proof (filter_split_length is_anchor (records_of content)).
  lia.
Qed.

Lemma stable_step content :
  fst (process_csv content) = 0%nat ->
  fst (process_csv (file_after content)) = 0%nat
  /\ file_after (file_after content) = file_after content.
Proof.
  intros Hzero. unfold file_after at 1 3 4.
  destruct (process_csv content) as [c [written|]] eqn:Hrun;
    cbn [fst snd] in *; subst c.
  - apply zero_run_stable in Hrun. unfold file_after. by rewrite Hrun.
  - unfold file_after. by rewrite Hrun.
Qed.

Lemma runs_S n content : runs (S n) content = file_after (runs n content).
Proof. reflexivity. Qed.

Lemma runs_S_r n content : runs (S n) content = runs n (file_after content).
Proof. unfold runs. apply Nat.iter_succ_r. Qed.

Lemma count_none content fixed_count :
  process_csv content = (fixed_count, None) -> fixed_count = 0%nat.
Proof.
  intros Hrun. pose proof (process_csv_none content) as Hnone.
  rewrite Hrun in Hnone. by injection (Hnone eq_refl).
Qed.

Lemma zero_run_reached n : forall content,
  (corrupted content <= n)%nat ->
  exists k, (k <= corrupted content)%nat
            /\ fst (process_csv (runs k content)) = 0%nat.
Proof.
  induction n as [|n IH]; intros content Hn;
    destruct (process_csv content) as [c [written|]] eqn:Hrun.
  - pose proof (corrupted_after _ _ _ Hrun).
    exists 0%nat. split; [lia|]. change (runs 0 content) with content.
    rewrite Hrun. cbn [fst]. lia.
  - exists 0%nat. split; [lia|]. change (runs 0 content) with content.
    rewrite Hrun. by apply (count_none content).
  - pose proof (corrupted_after _ _ _ Hrun) as Hless.
    destruct c as [|c].
    + exists 0%nat. split; [lia|]. change (runs 0 content) with content.
      by rewrite Hrun.
    + destruct (IH written ltac:(lia)) as (k & Hk & Hzero).
      exists (S k). split; [lia|].
      rewrite runs_S_r. unfold file_after. by rewrite Hrun.
  - exists 0%nat. split; [lia|]. change (runs 0 content) with content.
    rewrite Hrun. by apply (count_none content).
Qed.

(** X9: repeated runs settle.  After at most as many runs as the file has
    records that are no anchors, every further run returns 0, and from the
    run after that one on the file is rewritten, if at all, with the text
    it already has. *)
Theorem X9_repeated_runs_settle (content : string) :
  exists k,
    (k <= corrupted content)%nat
    /\ forall j, (k <= j)%nat ->
         fst (process_csv (runs j content)) = 0%nat
         /\ runs (S (S j)) content = runs (S j) content.
Proof.
  destruct (zero_run_reached (corrupted content) content (le_n _))
    as (k & Hk & Hzero).
  exists k. split; [done|]. intros j Hj.
  assert (fst (process_csv (runs j content)) = 0%nat) as Hj0.
  { induction Hj as [|j Hj IH]; [done|].
    rewrite runs_S. by apply stable_step. }
  split; [done|]. rewrite (runs_S (S j)), (runs_S j). by apply stable_step.
Qed.

Lemma X9_witness :
  exists k,
    (k <= corrupted edge_low_file)%nat
    /\ forall j, (k <= j)%nat ->
         fst (process_csv (runs j edge_low_file)) = 0%nat
         /\ runs (S (S j)) edge_low_file = runs (S j) edge_low_file.
Proof. apply (X9_repeated_runs_settle edge_low_file). Defined.

(** ** C4: the second run *)

(** A row of a file that a run repairs: it is no anchor and its inferred
    year is in [1800, 2100]. *)
Definition repairable (content : string) (i : nat) : Prop :=
  exists rec y,
    records_of content !! i = Some rec
    /\ is_anchor rec = false
    /\ infer_year (records_of content) (ascending (records_of content)) i
       = Some y
    /\ 1800 <= y <= 2100.

Lemma repair_row_counted records asc i rec :
  snd (repair_row records asc i rec) <> 0%nat
  <-> is_anchor rec = false
      /\ exists y, infer_year records asc i = Some y /\ 1800 <= y <= 2100.
Proof.
  destruct (repair_row_cases records asc i rec)
    as [[Ha ->]|[(Ha & Hu & ->)|(y & Ha & Hu & ->)]]; cbn [snd].
  - split; [done|]. intros [? _]. congruence.
  - split; [done|]. intros (_ & y & Hy & Hin).
    assert (usable_year (infer_year records asc i) = Some y) as Hsome.
    { rewrite Hy. apply usable_year_Some. split; [done|lia]. }
    congruence.
  - split; [|done]. intros _. split; [done|].
    apply usable_year_Some in Hu as (Hy & _ & Hin). by exists y.
Qed.

Lemma no_anchor_no_year records asc i :
  (forall j, no_anchor_at records j) -> infer_year records asc i = None.
Proof.
  intros Hno. unfold infer_year.
  rewrite scan_prev_none, scan_next_none; [done| |]; by intros j _.
Qed.

(** A run that writes nothing found no anchor. *)
Lemma process_csv_none_inv content :
  snd (process_csv content) = None ->
  forall j, no_anchor_at (records_of content) j.
Proof.
  unfold process_csv, repair_lines, records_of.
  destruct (Nat.ltb (length (read_lines content)) 2) eqn:Hlen.
  - intros _ j rec Hrec. apply Nat.ltb_lt in Hlen.
    destruct (read_lines content) as [|h [|l ls]]; [done|done|].
    cbn in Hlen. lia.
  - destruct (read_lines content) as [|header data_lines]; [done|].
    cbn [tail].
    pose proof (scan_up_spec (parse_records data_lines) 0
                  (length (parse_records data_lines) - 0)) as Hscan.
    unfold range.
    destruct (first_anchor_in _ _) as [found|].
    + by destruct (repair_loop _ _).
    + intros _ j.
      destruct (decide (j < length (parse_records data_lines))%nat).
      * apply Hscan. lia.
      * apply no_anchor_beyond. lia.
Qed.

Lemma sum_list_zero_inv (l : list nat) i n :
  sum_list l = 0%nat -> l !! i = Some n -> n = 0%nat.
Proof.
  revert i. induction l as [|x l IH]; intros i Hsum Hi; [done|].
  cbn [sum_list_with] in Hsum. change (id x) with x in Hsum.
  destruct i as [|i]; cbn in Hi.
  - injection Hi as <-. lia.
  - apply (IH i); [lia|done].
Qed.

(** The count of a run is 0 exactly when no row of the file is
    repairable. *)
Lemma count_zero_iff content :
  fst (process_csv content) = 0%nat <-> forall i, ~ repairable content i.
Proof.
  destruct (process_csv content) as [c [written|]] eqn:Hrun; cbn [fst].
  - destruct (process_csv_records _ _ _ Hrun) as (header & _ & _ & -> & _).
    split.
    + intros Hzero i (rec & y & Hrec & Ha & Hy & Hin).
      apply (proj2 (repair_row_counted (records_of content)
                      (ascending (records_of content)) i rec));
        [split; [done|by exists y]|].
      apply (sum_list_zero_inv _ i _ Hzero).
      unfold increments. by rewrite list_lookup_imap, Hrec.
    + intros Hno. apply sum_list_zero, Forall_lookup. intros i n Hi.
      unfold increments in Hi. rewrite list_lookup_imap in Hi.
      destruct (records_of content !! i) as [rec|] eqn:Hrec; [|done].
      cbn in Hi. injection Hi as <-.
      destruct (decide (snd (repair_row (records_of content)
                               (ascending (records_of content)) i rec)
                        = 0%nat)) as [|Hne]; [done|].
      exfalso. apply repair_row_counted in Hne as (Ha & y & Hy & Hin).
      apply (Hno i). by exists rec, y.
  - rewrite (count_none _ _ Hrun). split; [|done].
    intros _ i (rec & y & Hrec & Ha & Hy & Hin).
    rewrite no_anchor_no_year in Hy; [done|].
    apply process_csv_none_inv. by rewrite Hrun.
Qed.

Lemma row_text_of_reread (recs : list record) :
  map row_text recs
  = (fun rec => original_date rec +:+ "," +:+ value rec) <$> (reread <$> recs).
Proof.
  rewrite <- list_fmap_compose. apply list_fmap_ext. intros i rec _.
  apply row_text_reread.
Qed.

(** A second run that counts nothing writes, if it writes, the text that
    the first run wrote. *)
Lemma second_run_stable content fixed_count written :
  process_csv content = (fixed_count, Some written) ->
  fst (process_csv written) = 0%nat ->
  file_after written = written.
Proof.
  intros Hrun Hzero. unfold file_after.
  destruct (process_csv written) as [c2 [w2|]] eqn:Hrun2; cbn [fst snd] in *;
    [|done].
  subst c2.
  destruct (process_csv_again _ _ _ Hrun) as (header & Hw & Hagain).
  rewrite Hrun2 in Hagain. injection Hagain as _ Hw2.
  destruct (process_csv_counts _ _ _ Hrun2) as (_ & _ & _ & Hsame).
  specialize (Hsame eq_refl).
  destruct (process_csv_records _ _ _ Hrun) as (_ & _ & Hr1 & _).
  destruct (process_csv_records _ _ _ Hrun2) as (_ & _ & Hr2 & _).
  etransitivity; [exact Hw2|]. etransitivity; [|symmetry; exact Hw].
  rewrite !write_csv_lines. do 2 f_equal.
  rewrite !row_text_of_reread. f_equal.
  by rewrite <- Hr2, <- Hr1.
Qed.

Lemma after_stable content :
  fst (process_csv (file_after content)) = 0%nat ->
  file_after (file_after content) = file_after content.
Proof.
  unfold file_after at 1 3 4.
  destruct (process_csv content) as [c [written|]] eqn:Hrun; cbn [snd].
  - by apply (second_run_stable content c).
  - intros _. unfold file_after. by rewrite Hrun.
Qed.

Lemma unchanged_dates (l : list record) :
  List.filter date_changed (zip l l) = [].
Proof.
  induction l as [|x l IH]; [done|]. cbn [zip zip_with List.filter].
  unfold date_changed at 1. cbn [fst snd]. by rewrite String.eqb_refl.
Qed.

(** A run with a positive count changes the file. *)
Lemma counted_run_changes content fixed_count written :
  process_csv content = (fixed_count, Some written) ->
  fixed_count <> 0%nat -> written <> content.
Proof.
  intros Hrun Hne ->.
  destruct (process_csv_counts _ _ _ Hrun) as (Hcount & _).
  by rewrite unchanged_dates in Hcount.
Qed.

(** After a run that repairs every corrupted row all the records are
    anchors. *)
Lemma all_repaired_all_anchors content fixed_count written :
  process_csv content = (fixed_count, Some written) ->
  (forall i rec, records_of content !! i = Some rec ->
                 is_anchor rec = false -> repairable content i) ->
  forall i, ~ repairable written i.
Proof.
  intros Hrun Hall i (rec2 & y & Hrec2 & Ha2 & _).
  destruct (process_csv_records _ _ _ Hrun) as (_ & _ & Hafter & _ & _ & _ & Hrows).
  rewrite Hafter, list_lookup_fmap in Hrec2. unfold repaired in Hrec2.
  rewrite list_lookup_imap in Hrec2.
  destruct (records_of content !! i) as [rec|] eqn:Hrec; [|done].
  cbn in Hrec2. injection Hrec2 as <-.
  destruct (Hrows i rec Hrec) as [[Hzero Hsame]|(_ & _ & Hanchor & _)];
    [|congruence].
  rewrite Hsame in Ha2.
  destruct (Hall i rec Hrec Ha2) as (rec' & y' & Hrec' & _ & Hy' & Hin').
  apply (proj2 (repair_row_counted (records_of content)
                  (ascending (records_of content)) i rec));
    [split; [done|by exists y']|done].
Qed.

(** C4, amended: after a first run, a second run returns 0 and leaves the
    file unchanged exactly when no row of the file that the first run left
    is repairable, that is when every row that is not an anchor there has,
    from the anchors of that file, an inferred year outside [1800, 2100] (or
    none); when the second run returns another count it changes the file.
    The second run is such a no-op in particular when the first run wrote
    nothing, when it returned 0, and when it repaired every corrupted row;
    it is not when a row that the first run had to keep verbatim is
    repairable from the anchors that the first run created. *)
Theorem C4_idempotent_amended (content : string) :
  ((fst (process_csv (file_after content)) = 0%nat
    /\ file_after (file_after content) = file_after content)
   <-> forall i, ~ repairable (file_after content) i)
  /\ (fst (process_csv (file_after content)) <> 0%nat ->
      file_after (file_after content) <> file_after content)
  /\ (snd (process_csv content) = None
      \/ fst (process_csv content) = 0%nat
      \/ (forall i rec, records_of content !! i = Some rec ->
                        is_anchor rec = false -> repairable content i) ->
      fst (process_csv (file_after content)) = 0%nat
      /\ file_after (file_after content) = file_after content).
Proof.
  split; [|split].
  - split.
    + intros [Hzero _]. by apply count_zero_iff.
    + intros Hno. apply count_zero_iff in Hno. split; [done|].
      by apply after_stable.
  - intros Hne. unfold file_after at 1.
    destruct (process_csv (file_after content)) as [c2 [w2|]] eqn:Hrun2;
      cbn [fst snd] in *.
    + by apply (counted_run_changes _ c2).
    + by rewrite (count_none _ _ Hrun2) in Hne.
  - intros [Hnone|[Hzero|Hall]].
    + apply stable_step. by rewrite (process_csv_none _ Hnone).
    + by apply stable_step.
    + assert (forall i, ~ repairable (file_after content) i) as Hno.
      { unfold file_after.
        destruct (process_csv content) as [c [written|]] eqn:Hrun; cbn [snd].
        - by apply (all_repaired_all_anchors content c).
        - apply count_zero_iff. by rewrite Hrun, (count_none _ _ Hrun). }
      apply count_zero_iff in Hno. split; [done|]. by apply after_stable.
Qed.

(** A file whose last row stays out of range at every run. *)
Definition edge_high_file : string := lines_text ("h" :: edge_high_lines).

Lemma C4_witness :
  fst (process_csv (file_after edge_high_file)) = 0%nat
  /\ file_after (file_after edge_high_file) = file_after edge_high_file.
Proof.
  destruct (C4_idempotent_amended edge_high_file) as (_ & _ & Hsufficient).
  apply Hsufficient. right. left. reflexivity.
Defined.

(** ** Line endings *)





(** * The driver [main] (lines 165-199) *)

(** ** The files under [BASE_DIR] *)

(** What [main] reads and writes: the names in [BASE_DIR], when it can be
    listed.  A name in it is a directory (a section) or something else; a
    name in a section is a regular file, with its bytes, or a directory.
    Distinct names are distinct files; a regular file can be opened for
    reading and for writing. *)
Inductive entry : Type :=
  | Regular (content : string)
  | Subdirectory.

Inductive node : Type :=
  | Directory (entries : gmap string entry)
  | NotDirectory.

Abbreviation tree := (gmap string node).

Inductive exception : Type :=
  | FileNotFoundError
  | NotADirectoryError
  | IsADirectoryError
  | UnicodeDecodeError.

(** [os.listdir]: the names, in no particular order. *)
Definition listdir {A} (d : gmap string A) : list string :=
  (map_to_list d).*1.

(** [sorted] on strings: the order of the code points, which is the order of
    the bytes of their UTF-8 text. *)
Definition str_le (a b : string) : Prop := String.leb a b = true.

#[global] Instance str_le_dec (a b : string) : Decision (str_le a b) :=
  bool_eq_dec (String.leb a b) true.

Definition sorted (names : list string) : list string :=
  merge_sort str_le names.

(** [s.endswith(suffix)] *)
Fixpoint endswith (s suffix : string) : bool :=
  String.eqb s suffix
  || match s with
     | EmptyString => false
     | String _ rest => endswith rest suffix
     end.

(** [open(csv_path, 'r', encoding='utf-8')] and the read of lines 41-42,
    for the path [BASE_DIR/section/csv_file]: the text of the file, when its
    bytes are the encoding of one. *)
Definition read_file (t : tree) (section csv_file : string)
  : exception + string :=
  match t !! section with
  | Some (Directory entries) =>
      match entries !! csv_file with
      | Some (Regular content) =>
          match decode_utf8 content with
          | Some _ => inr content
          | None => inl UnicodeDecodeError
          end
      | Some Subdirectory => inl IsADirectoryError
      | None => inl FileNotFoundError
      end
  | Some NotDirectory => inl NotADirectoryError
  | None => inl FileNotFoundError
  end.

(** [open(csv_path, 'w')] and the writes of lines 158-161. *)
Definition write_file (t : tree) (section csv_file : string) (text : string)
  : tree :=
  match t !! section with
  | Some (Directory entries) =>
      <[section := Directory (<[csv_file := Regular text]> entries)]> t
  | _ => t
  end.

(** [process_csv(csv_path)] on the files: the file is opened and decoded,
    the lines 42-163 run on its text, and the text written, if any, replaces
    it.  The count and the files after. *)
Definition process_csv_path (t : tree) (section csv_file : string)
  : exception + (nat * tree) :=
  match read_file t section csv_file with
  | inl e => inl e
  | inr content =>
      match process_csv content with
      | (fixed, Some written) =>
          inr (fixed, write_file t section csv_file written)
      | (fixed, None) => inr (fixed, t)
      end
  end.

(** ** The state of [main] *)

(** The files, the arguments of the calls of [print] so far (each call
    writes its argument and a newline to the standard output), and the
    counters. *)
Record state : Type := mkState {
  files : tree;
  printed : list string;
  total_fixed : nat;
  files_fixed : nat;
  section_fixed : nat
}.

Inductive result : Type :=
  | Normal (st : state)
  | Raised (e : exception) (st : state).

Definition print (s : string) (st : state) : state :=
  {| files := files st;
     printed := printed st ++ [s];
     total_fixed := total_fixed st;
     files_fixed := files_fixed st;
     section_fixed := section_fixed st |}.

(** The text on the standard output. *)
Definition stdout (st : state) : string := lines_text (printed st).

(** A [for name in names: body] loop that an exception leaves. *)
Fixpoint for_each (body : string -> state -> result) (names : list string)
    (st : state) : result :=
  match names with
  | [] => Normal st
  | name :: rest =>
      match body name st with
      | Normal st' => for_each body rest st'
      | Raised e st' => Raised e st'
      end
  end.

(** [f"{n}"] for a count. *)
Definition str_int (n : nat) : string := decimal (N.of_nat n).

(** The check mark U+2713, as UTF-8. *)
Definition CHECK_MARK : string :=
  String (ascii_of_nat 226) (String (ascii_of_nat 156)
    (String (ascii_of_nat 147) EmptyString)).

(** lines 181-192 *)
Definition csv_body (section csv_file : string) (st : state) : result :=
  if negb (endswith csv_file ".csv") then Normal st
  else
    match process_csv_path (files st) section csv_file with
    | inl e => Raised e st
    | inr (fixed, files') =>
        if (0 <? fixed)%nat
        then Normal
               {| files := files';
                  printed := printed st
                             ++ ["  " +:+ CHECK_MARK +:+ " " +:+ csv_file +:+ ": "
                                 +:+ str_int fixed +:+ " dates fixed"];
                  total_fixed := (total_fixed st + fixed)%nat;
                  files_fixed := (files_fixed st + 1)%nat;
                  section_fixed := (section_fixed st + fixed)%nat |}
        else Normal
               {| files := files';
                  printed := printed st;
                  total_fixed := total_fixed st;
                  files_fixed := files_fixed st;
                  section_fixed := section_fixed st |}
    end.

(** lines 173-195 *)
Definition section_body (section : string) (st : state) : result :=
  match files st !! section with
  | Some (Directory entries) =>
      let st1 :=
        {| files := files st;
           printed := printed st ++ [NL +:+ section +:+ ":"];
           total_fixed := total_fixed st;
           files_fixed := files_fixed st;
           section_fixed := 0 |} in
      match for_each (csv_body section) (sorted (listdir entries)) st1 with
      | Normal st2 =>
          if Nat.eqb (section_fixed st2) 0
          then Normal (print "  (no fixes needed)" st2)
          else Normal st2
      | Raised e st2 => Raised e st2
      end
  | _ => Normal st
  end.

Definition rule : string := string_rep 60 "=".

(** [main], on what is under [BASE_DIR]: [None] when [BASE_DIR] does not
    exist, so that [os.listdir(BASE_DIR)] raises after the title is
    printed. *)
Definition main (base : option tree) : result :=
  let title := [rule; "Fixing Corrupted Dates in CSV Files"; rule] in
  match base with
  | None =>
      Raised FileNotFoundError
        {| files := ∅; printed := title;
           total_fixed := 0; files_fixed := 0; section_fixed := 0 |}
  | Some t =>
      let st0 :=
        {| files := t; printed := title;
           total_fixed := 0; files_fixed := 0; section_fixed := 0 |} in
      match for_each section_body (sorted (listdir t)) st0 with
      | Normal st =>
          Normal
            (print rule
               (print ("COMPLETE! Fixed " +:+ str_int (total_fixed st)
                       +:+ " dates in " +:+ str_int (files_fixed st)
                       +:+ " files")
                  (print (NL +:+ rule) st)))
      | Raised e st => Raised e st
      end
  end.

(** Two sections and a stray file: [gold] holds a file to repair, a file
    that is no CSV file and a directory; [silver] holds a file with nothing
    to repair. *)
Definition sample_tree : tree :=
  {[ "silver" := Directory {[ "b.csv" := Regular (lines_text ("date,value" :: february_lines)) ]};
     "gold" := Directory
                 {[ "a.csv" := Regular (lines_text ("date,value" :: month_zero_lines));
                    "notes.txt" := Regular (lines_text ("date,value" :: month_zero_lines));
                    "old" := Subdirectory ]};
     "README" := NotDirectory ]}.

Example main_sample :
  match main (Some sample_tree) with
  | Normal st =>
      printed st
      = [rule; "Fixing Corrupted Dates in CSV Files"; rule;
         NL +:+ "gold:";
         "  " +:+ CHECK_MARK +:+ " a.csv: 2 dates fixed";
         NL +:+ "silver:";
         "  " +:+ CHECK_MARK +:+ " b.csv: 1 dates fixed";
         NL +:+ rule;
         "COMPLETE! Fixed 3 dates in 2 files";
         rule]
  | Raised _ _ => False
  end.
Proof. vm_compute. reflexivity. Qed.

(** ** Names and maps *)

Lemma elem_of_listdir {A} (d : gmap string A) name :
  name ∈ listdir d <-> is_Some (d !! name).
Proof.
  unfold listdir. rewrite list_elem_of_fmap. split.
  - intros ([n x] & -> & Hin). apply elem_of_map_to_list in Hin. by exists x.
  - intros [x Hx]. exists (name, x). split; [done|].
    by apply elem_of_map_to_list.
Qed.

Lemma NoDup_listdir {A} (d : gmap string A) : NoDup (listdir d).
Proof. apply NoDup_fst_map_to_list. Qed.

Lemma sorted_Permutation names : sorted names ≡ₚ names.
Proof. apply merge_sort_Permutation. Qed.

Lemma elem_of_sorted_listdir {A} (d : gmap string A) name :
  name ∈ sorted (listdir d) <-> is_Some (d !! name).
Proof. by rewrite sorted_Permutation, elem_of_listdir. Qed.

Lemma NoDup_sorted_listdir {A} (d : gmap string A) :
  NoDup (sorted (listdir d)).
Proof. rewrite sorted_Permutation. apply NoDup_listdir. Qed.

(** The entries after each of [names] has been changed by [f]. *)
Definition alter_all {A} (f : string -> A -> A) (names : list string)
    (m : gmap string A) : gmap string A :=
  foldl (fun acc name => alter (f name) name acc) m names.

Lemma alter_all_lookup {A} (f : string -> A -> A) names (m : gmap string A) k :
  NoDup names ->
  alter_all f names m !! k
  = if decide (k ∈ names) then f k <$> m !! k else m !! k.
Proof.
  revert m. induction names as [|name names IH]; intros m Hnd.
  - cbn. by rewrite decide_False by apply not_elem_of_nil.
  - apply NoDup_cons in Hnd as [Hnotin Hnd].
    change (alter_all f (name :: names) m)
      with (alter_all f names (alter (f name) name m)).
    rewrite (IH _ Hnd). destruct (decide (k = name)) as [->|Hne].
    + rewrite (decide_False _ _ Hnotin), decide_True by apply list_elem_of_here.
      apply lookup_alter_eq.
    + rewrite !(lookup_alter_ne _ _ name k) by done.
      destruct (decide (k ∈ names)) as [Hin|Hout].
      * by rewrite decide_True by (by apply list_elem_of_further).
      * rewrite decide_False; [done|]. by intros [?|?]%elem_of_cons.
Qed.

Lemma alter_all_listdir {A} (f : string -> A -> A) names (m : gmap string A) :
  names ≡ₚ listdir m ->
  alter_all f names m = map_imap (fun k x => Some (f k x)) m.
Proof.
  intros Hperm. apply map_eq. intros k.
  rewrite alter_all_lookup by (rewrite Hperm; apply NoDup_listdir).
  rewrite map_lookup_imap.
  destruct (decide (k ∈ names)) as [Hin|Hout].
  - by destruct (m !! k).
  - destruct (m !! k) as [x|] eqn:Hk; [|done]. exfalso. apply Hout.
    rewrite Hperm. apply elem_of_listdir. by exists x.
Qed.

Lemma alter_as_insert {A} (f : A -> A) (m : gmap string A) k x :
  m !! k = Some x -> <[k := f x]> m = alter f k m.
Proof.
  intros Hk. apply map_eq. intros j. destruct (decide (k = j)) as [<-|Hne].
  - by rewrite lookup_insert_eq, lookup_alter_eq, Hk.
  - by rewrite lookup_insert_ne, lookup_alter_ne.
Qed.

Lemma sum_list_with_ext {A} (f g : A -> nat) (l : list A) :
  (forall x, x ∈ l -> f x = g x) -> sum_list_with f l = sum_list_with g l.
Proof.
  induction l as [|x l IH]; intros Hfg; [done|]. cbn.
  rewrite (Hfg x) by apply list_elem_of_here.
  rewrite IH; [done|]. intros y Hy. apply Hfg. by apply list_elem_of_further.
Qed.

Lemma bind_ext_in {A B} (f g : A -> list B) (l : list A) :
  (forall x, x ∈ l -> f x = g x) -> l ≫= f = l ≫= g.
Proof.
  induction l as [|x l IH]; intros Hfg; [done|]. cbn.
  rewrite (Hfg x) by apply list_elem_of_here.
  rewrite IH; [done|]. intros y Hy. apply Hfg. by apply list_elem_of_further.
Qed.

(** ** One file and one section *)

(** What a run of [main] does to an entry of a section. *)
Definition repair_entry (name : string) (e : entry) : entry :=
  match e with
  | Regular content =>
      if endswith name ".csv" then Regular (file_after content) else e
  | Subdirectory => e
  end.

(** The count that [process_csv] returns for a name of a section; 0 for a
    name that [main] skips. *)
Definition csv_count (entries : gmap string entry) (name : string) : nat :=
  match entries !! name with
  | Some (Regular content) =>
      if endswith name ".csv" then fst (process_csv content) else 0%nat
  | _ => 0%nat
  end.

(** What [main] prints for a name of a section. *)
Definition csv_report (entries : gmap string entry) (name : string)
  : list string :=
  if (0 <? csv_count entries name)%nat
  then ["  " +:+ CHECK_MARK +:+ " " +:+ name +:+ ": "
        +:+ str_int (csv_count entries name) +:+ " dates fixed"]
  else [].

(** A name of a CSV file that [process_csv] cannot read: a directory, or
    a file whose bytes are no UTF-8 text. *)
Definition blocked_in (entries : gmap string entry) (name : string) : Prop :=
  endswith name ".csv" = true
  /\ (entries !! name = Some Subdirectory
      \/ exists content,
           entries !! name = Some (Regular content)
           /\ decode_utf8 content = None).

Lemma repair_entry_written name content fixed written :
  endswith name ".csv" = true ->
  process_csv content = (fixed, written) ->
  repair_entry name (Regular content)
  = Regular (match written with Some w => w | None => content end).
Proof.
  intros Hcsv Hrun. unfold repair_entry, file_after. by rewrite Hcsv, Hrun.
Qed.

Lemma csv_body_spec section name st entries :
  files st !! section = Some (Directory entries) ->
  is_Some (entries !! name) ->
  match csv_body section name st with
  | Normal st' =>
      ~ blocked_in entries name
      /\ files st'
         = <[section := Directory (alter (repair_entry name) name entries)]>
             (files st)
      /\ total_fixed st' = (total_fixed st + csv_count entries name)%nat
      /\ files_fixed st'
         = (files_fixed st
            + if (0 <? csv_count entries name)%nat then 1 else 0)%nat
      /\ section_fixed st' = (section_fixed st + csv_count entries name)%nat
      /\ printed st' = printed st ++ csv_report entries name
  | Raised e st' => blocked_in entries name /\ st' = st
  end.
Proof.
  intros Hsec [e He].
  unfold csv_body, csv_report, csv_count, blocked_in. rewrite He.
  destruct (endswith name ".csv") eqn:Hcsv; cbn [negb].
  - unfold process_csv_path, read_file. rewrite Hsec, He.
    destruct e as [content|]; [|by split; [split; [|left]|]].
    destruct (decode_utf8 content) as [cs|] eqn:Hdec;
      [|split; [split; [done|right; by exists content]|done]].
    destruct (process_csv content) as [fixed written] eqn:Hrun. cbn [fst].
    pose proof (repair_entry_written name content fixed written Hcsv Hrun)
      as Hentry.
    assert (match written with
            | Some w => write_file (files st) section name w
            | None => files st
            end
            = <[section := Directory (alter (repair_entry name) name entries)]>
                (files st)) as Hfiles.
    { rewrite <- (alter_as_insert _ _ _ _ He), Hentry.
      destruct written as [w|].
      - unfold write_file. by rewrite Hsec.
      - by rewrite (insert_id entries name), (insert_id (files st) section). }
    assert (~ (true = true
               /\ (Some (Regular content) = Some Subdirectory
                   \/ exists content0,
                        Some (Regular content) = Some (Regular content0)
                        /\ decode_utf8 content0 = None))) as Hfree.
    { intros [_ [?|(c & [= <-] & Hnone)]]; [done|congruence]. }
    destruct written as [w|]; destruct (Nat.ltb_spec 0 fixed);
      cbn [files total_fixed files_fixed section_fixed printed];
      rewrite <- Hfiles, ?app_nil_r;
      (split; [exact Hfree|]); repeat split; lia.
  - destruct e as [content|].
    + rewrite (alter_id (repair_entry name)), (insert_id (files st) section),
        app_nil_r; [|done|].
      * cbn [Nat.ltb Nat.leb]. (split; [by intros [? ?]|]); repeat split; lia.
      * intros x Hx. simplify_eq. unfold repair_entry. by rewrite Hcsv.
    + rewrite (alter_id (repair_entry name)), (insert_id (files st) section),
        app_nil_r; [|done|].
      * cbn [Nat.ltb Nat.leb]. (split; [by intros [? ?]|]); repeat split; lia.
      * intros x Hx. by simplify_eq.
Qed.

Lemma csv_count_alter_ne f name entries n :
  name <> n -> csv_count (alter f name entries) n = csv_count entries n.
Proof. intros Hne. unfold csv_count. by rewrite lookup_alter_ne. Qed.

Lemma csv_report_alter_ne f name entries n :
  name <> n -> csv_report (alter f name entries) n = csv_report entries n.
Proof. intros Hne. unfold csv_report. by rewrite csv_count_alter_ne. Qed.

Lemma blocked_alter_ne f name entries n :
  name <> n ->
  blocked_in (alter f name entries) n <-> blocked_in entries n.
Proof. intros Hne. unfold blocked_in. by rewrite lookup_alter_ne. Qed.

(** The loop over the names of a section. *)
Lemma csv_loop_spec section names : forall st entries,
  NoDup names ->
  files st !! section = Some (Directory entries) ->
  (forall n, n ∈ names -> is_Some (entries !! n)) ->
  match for_each (csv_body section) names st with
  | Normal st' =>
      (forall n, n ∈ names -> ~ blocked_in entries n)
      /\ files st'
         = <[section := Directory (alter_all repair_entry names entries)]>
             (files st)
      /\ total_fixed st'
         = (total_fixed st + sum_list_with (csv_count entries) names)%nat
      /\ files_fixed st'
         = (files_fixed st
            + sum_list_with
                (fun n => if (0 <? csv_count entries n)%nat then 1 else 0)
                names)%nat
      /\ section_fixed st'
         = (section_fixed st + sum_list_with (csv_count entries) names)%nat
      /\ printed st' = printed st ++ (names ≫= csv_report entries)
  | Raised e st' => exists n, n ∈ names /\ blocked_in entries n
  end.
Proof.
  induction names as [|name rest IH]; intros st entries Hnd Hsec Hdom.
  - cbn [for_each]. unfold alter_all.
    cbn [foldl sum_list_with mbind list_bind].
    split; [by intros n ?%elem_of_nil|].
    rewrite insert_id, app_nil_r by done. repeat split; lia.
  - apply NoDup_cons in Hnd as [Hnotin Hnd]. cbn [for_each].
    pose proof (csv_body_spec section name st entries Hsec
                  (Hdom name (list_elem_of_here _ _))) as Hbody.
    destruct (csv_body section name st) as [st1|e st1].
    + destruct Hbody as (Hno & Hf1 & Ht1 & Hff1 & Hs1 & Hp1).
      set (entries1 := alter (repair_entry name) name entries) in *.
      assert (forall n, n ∈ rest -> name <> n) as Hne.
      { intros n Hn ->. done. }
      specialize (IH st1 entries1 Hnd).
      destruct (for_each (csv_body section) rest st1) as [st2|e st2].
      * destruct IH as (Hno2 & Hf2 & Ht2 & Hff2 & Hs2 & Hp2).
        { rewrite Hf1. apply lookup_insert_eq. }
        { intros n Hn. unfold entries1. rewrite lookup_alter_ne by auto.
          apply Hdom. by apply list_elem_of_further. }
        split; [|split; [|split; [|split; [|split]]]].
        -- intros n [->|Hn]%elem_of_cons; [done|].
           rewrite <- (blocked_alter_ne (repair_entry name) name) by auto.
           by apply Hno2.
        -- by rewrite Hf2, Hf1, insert_insert_eq.
        -- rewrite Ht2, Ht1. cbn [sum_list_with].
           rewrite (sum_list_with_ext (csv_count entries1) (csv_count entries));
             [lia|]. intros n Hn. apply csv_count_alter_ne. auto.
        -- rewrite Hff2, Hff1. cbn [sum_list_with].
           rewrite (sum_list_with_ext
                      (fun n => if (0 <? csv_count entries1 n)%nat then 1 else 0)
                      (fun n => if (0 <? csv_count entries n)%nat then 1 else 0))%nat;
             [lia|]. intros n Hn. unfold entries1.
           rewrite csv_count_alter_ne; auto.
        -- rewrite Hs2, Hs1. cbn [sum_list_with].
           rewrite (sum_list_with_ext (csv_count entries1) (csv_count entries));
             [lia|]. intros n Hn. apply csv_count_alter_ne. auto.
        -- rewrite Hp2, Hp1. cbn [mbind list_bind]. rewrite <- app_assoc.
           f_equal. f_equal. apply bind_ext_in. intros n Hn.
           apply csv_report_alter_ne. auto.
      * destruct IH as (n & Hn & Hdir).
        { rewrite Hf1. apply lookup_insert_eq. }
        { intros n Hn. unfold entries1. rewrite lookup_alter_ne by auto.
          apply Hdom. by apply list_elem_of_further. }
        exists n. split; [by apply list_elem_of_further|].
        by apply (blocked_alter_ne (repair_entry name) name); auto.
    + destruct Hbody as (Hdir & _).
      exists name. split; [apply list_elem_of_here|done].
Qed.

(** What [main] does to a name of [BASE_DIR]. *)
Definition repair_node (n : node) : node :=
  match n with
  | Directory entries =>
      Directory (map_imap (fun name e => Some (repair_entry name e)) entries)
  | NotDirectory => NotDirectory
  end.

(** The dates fixed and the files fixed in a section. *)
Definition section_total (entries : gmap string entry) : nat :=
  sum_list_with (csv_count entries) (listdir entries).

Definition section_files (entries : gmap string entry) : nat :=
  sum_list_with (fun n => if (0 <? csv_count entries n)%nat then 1 else 0)%nat
                (listdir entries).

(** What [main] prints for a section. *)
Definition section_report (section : string) (entries : gmap string entry)
  : list string :=
  [NL +:+ section +:+ ":"]
  ++ (sorted (listdir entries) ≫= csv_report entries)
  ++ (if Nat.eqb (section_total entries) 0
      then ["  (no fixes needed)"] else []).

Lemma section_body_directory section st entries :
  files st !! section = Some (Directory entries) ->
  match section_body section st with
  | Normal st' =>
      (forall n, ~ blocked_in entries n)
      /\ files st' = <[section := repair_node (Directory entries)]> (files st)
      /\ total_fixed st' = (total_fixed st + section_total entries)%nat
      /\ files_fixed st' = (files_fixed st + section_files entries)%nat
      /\ printed st' = printed st ++ section_report section entries
  | Raised e st' => exists n, blocked_in entries n
  end.
Proof.
  intros Hsec. unfold section_body. rewrite Hsec.
  set (st1 := {| files := files st;
                 printed := printed st ++ [NL +:+ section +:+ ":"];
                 total_fixed := total_fixed st;
                 files_fixed := files_fixed st;
                 section_fixed := 0 |}).
  pose proof (csv_loop_spec section (sorted (listdir entries)) st1 entries
                (NoDup_sorted_listdir entries) Hsec
                (fun n Hn => proj1 (elem_of_sorted_listdir entries n) Hn))
    as Hloop.
  destruct (for_each (csv_body section) (sorted (listdir entries)) st1)
    as [st2|e st2].
  - destruct Hloop as (Hno & Hf & Ht & Hff & Hs & Hp).
    cbn [files total_fixed files_fixed section_fixed printed st1] in *.
    assert (sum_list_with (csv_count entries) (sorted (listdir entries))
            = section_total entries) as Htotal.
    { unfold section_total. by rewrite sorted_Permutation. }
    assert (sum_list_with
              (fun n => if (0 <? csv_count entries n)%nat then 1 else 0)%nat
              (sorted (listdir entries))
            = section_files entries) as Hcount.
    { unfold section_files. by rewrite sorted_Permutation. }
    rewrite Htotal in Ht, Hs. rewrite Hcount in Hff.
    assert (Hfiles : files st2
                     = <[section := repair_node (Directory entries)]> (files st)).
    { rewrite Hf. cbn [repair_node]. do 2 f_equal.
      apply alter_all_listdir, sorted_Permutation. }
    assert (Hnone : forall n, ~ blocked_in entries n).
    { intros n Hdir. apply (Hno n); [|done].
      apply elem_of_sorted_listdir.
      destruct Hdir as [_ [->|(content & -> & _)]]; by eexists. }
    unfold section_report. rewrite Hs. cbn [Nat.add].
    destruct (Nat.eqb (section_total entries) 0);
      cbn [print files total_fixed files_fixed printed];
      rewrite Hp, ?app_nil_r, <- ?app_assoc; done.
  - destruct Hloop as (n & _ & Hdir). by exists n.
Qed.

(** ** The loop over [BASE_DIR] *)

Definition node_total (n : option node) : nat :=
  match n with
  | Some (Directory entries) => section_total entries
  | _ => 0%nat
  end.

Definition node_files (n : option node) : nat :=
  match n with
  | Some (Directory entries) => section_files entries
  | _ => 0%nat
  end.

Definition node_report (section : string) (n : option node) : list string :=
  match n with
  | Some (Directory entries) => section_report section entries
  | _ => []
  end.

(** Some section holds a name of a CSV file that [process_csv] cannot
    read. *)
Definition blocked (t : tree) : Prop :=
  exists section entries name,
    t !! section = Some (Directory entries) /\ blocked_in entries name.

Lemma section_body_spec section st :
  match section_body section st with
  | Normal st' =>
      (forall entries n,
          files st !! section = Some (Directory entries) ->
          ~ blocked_in entries n)
      /\ files st' = alter repair_node section (files st)
      /\ total_fixed st'
         = (total_fixed st + node_total (files st !! section))%nat
      /\ files_fixed st'
         = (files_fixed st + node_files (files st !! section))%nat
      /\ printed st'
         = printed st ++ node_report section (files st !! section)
  | Raised e st' =>
      exists entries n,
        files st !! section = Some (Directory entries)
        /\ blocked_in entries n
  end.
Proof.
  destruct (files st !! section) as [[entries|]|] eqn:Hsec.
  - pose proof (section_body_directory section st entries Hsec) as Hbody.
    destruct (section_body section st) as [st'|e st'].
    + destruct Hbody as (Hno & Hf & Ht & Hff & Hp).
      split; [by intros ? n [= <-]|].
      rewrite Hf, (alter_as_insert repair_node _ _ _ Hsec). done.
    + destruct Hbody as (n & Hdir). by exists entries, n.
  - unfold section_body. rewrite Hsec. cbn [node_total node_files node_report].
    rewrite app_nil_r, alter_id; [|intros x ?; by simplify_eq].
    split; [done|]. repeat split; lia.
  - unfold section_body. rewrite Hsec. cbn [node_total node_files node_report].
    rewrite app_nil_r, alter_id; [|intros x ?; by simplify_eq].
    split; [done|]. repeat split; lia.
Qed.

Lemma section_loop_spec names : forall st,
  NoDup names ->
  match for_each section_body names st with
  | Normal st' =>
      (forall s entries n,
          s ∈ names -> files st !! s = Some (Directory entries) ->
          ~ blocked_in entries n)
      /\ files st' = alter_all (fun _ => repair_node) names (files st)
      /\ total_fixed st'
         = (total_fixed st
            + sum_list_with (fun s => node_total (files st !! s)) names)%nat
      /\ files_fixed st'
         = (files_fixed st
            + sum_list_with (fun s => node_files (files st !! s)) names)%nat
      /\ printed st'
         = printed st ++ (names ≫= fun s => node_report s (files st !! s))
  | Raised e st' =>
      exists s entries n,
        s ∈ names /\ files st !! s = Some (Directory entries)
        /\ blocked_in entries n
  end.
Proof.
  induction names as [|name rest IH]; intros st Hnd.
  - cbn [for_each]. unfold alter_all.
    cbn [foldl sum_list_with mbind list_bind].
    split; [by intros s ? ? ?%elem_of_nil|].
    rewrite app_nil_r. repeat split; lia.
  - apply NoDup_cons in Hnd as [Hnotin Hnd]. cbn [for_each].
    pose proof (section_body_spec name st) as Hbody.
    destruct (section_body name st) as [st1|e st1].
    + destruct Hbody as (Hno & Hf1 & Ht1 & Hff1 & Hp1).
      assert (forall s, s ∈ rest -> files st1 !! s = files st !! s) as Hsame.
      { intros s Hs. rewrite Hf1. apply lookup_alter_ne. by intros ->. }
      specialize (IH st1 Hnd).
      destruct (for_each section_body rest st1) as [st2|e st2].
      * destruct IH as (Hno2 & Hf2 & Ht2 & Hff2 & Hp2).
        split; [|split; [|split; [|split]]].
        -- intros s entries n [->|Hs]%elem_of_cons Hsec; [by apply Hno|].
           apply (Hno2 s); [done|]. by rewrite Hsame.
        -- by rewrite Hf2, Hf1.
        -- rewrite Ht2, Ht1. cbn [sum_list_with].
           rewrite (sum_list_with_ext (fun s => node_total (files st1 !! s))
                      (fun s => node_total (files st !! s))); [lia|].
           intros s Hs. by rewrite Hsame.
        -- rewrite Hff2, Hff1. cbn [sum_list_with].
           rewrite (sum_list_with_ext (fun s => node_files (files st1 !! s))
                      (fun s => node_files (files st !! s))); [lia|].
           intros s Hs. by rewrite Hsame.
        -- rewrite Hp2, Hp1. cbn [mbind list_bind]. rewrite <- app_assoc.
           f_equal. f_equal. apply bind_ext_in. intros s Hs. by rewrite Hsame.
      * destruct IH as (s & entries & n & Hs & Hsec & Hdir).
        exists s, entries, n.
        split; [by apply list_elem_of_further|]. by rewrite <- Hsame.
    + destruct Hbody as (entries & n & Hsec & Hdir).
      exists name, entries, n. split; [apply list_elem_of_here|done].
Qed.

(** ** The run of [main] *)

Definition repair_tree (t : tree) : tree := repair_node <$> t.

Definition tree_total (t : tree) : nat :=
  sum_list_with (fun s => node_total (t !! s)) (listdir t).

Definition tree_files (t : tree) : nat :=
  sum_list_with (fun s => node_files (t !! s)) (listdir t).

(** What [main] prints between its title and its summary. *)
Definition report (t : tree) : list string :=
  sorted (listdir t) ≫= fun s => node_report s (t !! s).

Definition summary (total files : nat) : string :=
  "COMPLETE! Fixed " +:+ str_int total +:+ " dates in " +:+ str_int files
  +:+ " files".

Lemma main_spec t :
  match main (Some t) with
  | Normal st =>
      ~ blocked t
      /\ files st = repair_tree t
      /\ total_fixed st = tree_total t
      /\ files_fixed st = tree_files t
      /\ printed st
         = [rule; "Fixing Corrupted Dates in CSV Files"; rule]
           ++ report t
           ++ [NL +:+ rule; summary (tree_total t) (tree_files t); rule]
  | Raised e st => blocked t
  end.
Proof.
  unfold main.
  set (st0 := {| files := t;
                 printed := [rule; "Fixing Corrupted Dates in CSV Files"; rule];
                 total_fixed := 0; files_fixed := 0; section_fixed := 0 |}).
  pose proof (section_loop_spec (sorted (listdir t)) st0
                (NoDup_sorted_listdir t)) as Hloop.
  destruct (for_each section_body (sorted (listdir t)) st0) as [st|e st].
  - destruct Hloop as (Hno & Hf & Ht & Hff & Hp).
    cbn [files total_fixed files_fixed printed st0] in *.
    assert (total_fixed st = tree_total t) as Htotal.
    { rewrite Ht. unfold tree_total. by rewrite sorted_Permutation. }
    assert (files_fixed st = tree_files t) as Hcount.
    { rewrite Hff. unfold tree_files. by rewrite sorted_Permutation. }
    split; [|split; [|split; [|split]]].
    + intros (section & entries & n & Hsec & Hdir).
      apply (Hno section entries n); [|done|done].
      apply elem_of_sorted_listdir. by eexists.
    + cbn [print files]. rewrite Hf.
      rewrite (alter_all_listdir _ _ _ (sorted_Permutation _)).
      apply map_eq. intros s. unfold repair_tree.
      rewrite map_lookup_imap, lookup_fmap. by destruct (t !! s).
    + done.
    + done.
    + cbn [print printed]. rewrite Hp, Htotal, Hcount. unfold summary, report.
      by rewrite <- !app_assoc.
  - destruct Hloop as (s & entries & n & _ & Hsec & Hdir).
    by exists s, entries, n.
Qed.

#[global] Instance str_le_total : Total str_le.
Proof. intros a b. apply String.leb_total. Qed.

(** [sorted] returns its argument rearranged in ascending order. *)
Lemma sorted_Sorted names : Sorted str_le (sorted names).
Proof. apply (Sorted_merge_sort str_le). Qed.

(** The run of [main] on [sample_tree]. *)
Definition sample_final : state :=
  {| files := repair_tree sample_tree;
     printed :=
       [rule; "Fixing Corrupted Dates in CSV Files"; rule;
        NL +:+ "gold:";
        "  " +:+ CHECK_MARK +:+ " a.csv: 2 dates fixed";
        NL +:+ "silver:";
        "  " +:+ CHECK_MARK +:+ " b.csv: 1 dates fixed";
        NL +:+ rule;
        "COMPLETE! Fixed 3 dates in 2 files";
        rule];
     total_fixed := 3;
     files_fixed := 2;
     section_fixed := 1 |}.

Lemma main_sample_final : main (Some sample_tree) = Normal sample_final.
Proof. vm_compute. reflexivity. Qed.

(** X11: when [main] returns, every regular file whose name ends in [.csv]
    in a directory just under [BASE_DIR] holds what [process_csv] leaves in
    it, and nothing else under [BASE_DIR] has changed: the other files of
    the sections, the directories inside them and the entries of [BASE_DIR]
    that are no directories. *)
Theorem X11_main_rewrites_csv_files (t : tree) (st : state) :
  main (Some t) = Normal st ->
  files st = repair_tree t.
Proof.
  intros Hmain. pose proof (main_spec t) as Hspec. rewrite Hmain in Hspec.
  by destruct Hspec as (_ & ? & _).
Qed.

Lemma X11_witness : files sample_final = repair_tree sample_tree.
Proof.
  apply (X11_main_rewrites_csv_files sample_tree sample_final).
  vm_compute. reflexivity.
Defined.



(** A section with a directory named as a CSV file, and a section with a
    CSV file whose bytes are no UTF-8 text. *)
Definition blocked_tree : tree :=
  {[ "gold" := Directory
                 {[ "a.csv" := Regular (lines_text ("date,value" :: month_zero_lines));
                    "zz.csv" := Subdirectory ]} ]}.

Definition undecodable_tree : tree :=
  {[ "gold" := Directory
                 {[ "a.csv" := Regular (String (ascii_of_nat 255) "date,value") ]} ]}.

(** X13: [main] does not return when a section holds a name ending in
    [.csv] that [process_csv] cannot read, a directory or a file whose bytes
    are no UTF-8 text: an exception leaves it before the summary is
    printed.  Where [BASE_DIR] does not exist [FileNotFoundError] leaves it
    after the title. *)
Theorem X13_main_raises (t : tree) :
  blocked t ->
  (exists e st, main (Some t) = Raised e st)
  /\ (forall st, main (Some t) <> Normal st)
  /\ exists st, main None = Raised FileNotFoundError st
                /\ printed st
                   = [rule; "Fixing Corrupted Dates in CSV Files"; rule].
Proof.
  intros Hblocked. pose proof (main_spec t) as Hspec.
  destruct (main (Some t)) as [st|e st]; [by destruct Hspec as (? & _)|].
  split; [by exists e, st|]. split; [done|]. by eexists.
Qed.

Lemma X13_witness :
  (exists e st, main (Some undecodable_tree) = Raised e st)
  /\ (forall st, main (Some undecodable_tree) <> Normal st)
  /\ exists st, main None = Raised FileNotFoundError st
                /\ printed st
                   = [rule; "Fixing Corrupted Dates in CSV Files"; rule].
Proof.
  apply (X13_main_raises undecodable_tree).
  exists "gold", {[ "a.csv" := Regular (String (ascii_of_nat 255) "date,value") ]},
    "a.csv".
  split; [reflexivity|]. split; [reflexivity|]. right. eexists.
  split; reflexivity.
Defined.

Example main_blocked :
  match main (Some blocked_tree), main (Some undecodable_tree) with
  | Raised IsADirectoryError _, Raised UnicodeDecodeError _ => True
  | _, _ => False
  end.
Proof. vm_compute. exact I. Qed.

(** ** Which rows are anchors *)

Lemma records_of_fields content :
  Forall clean_fields (records_of content).
Proof.
  unfold records_of. apply parse_records_fields.
  pose proof (read_lines_clean content) as Hclean.
  destruct (read_lines content) as [|header data_lines]; [constructor|].
  by inversion Hclean.
Qed.

(** X14: the month and the day of an anchor are not checked.  A record of
    a file whose date field is the text that [format_date] writes for a year
    in [1800, 2100] and any month and day in [0, 99], such as 1970-13-45, is
    an anchor: it is kept as it is and not counted, and its year is used to
    project the years of its neighbours.  Conversely the date field of an
    anchor reads as a year in [1800, 2100] with a month and a day in
    [0, 99]. *)
Theorem X14_anchor_dates (content : string) (i : nat) (rec : record) :
  records_of content !! i = Some rec ->
  (is_anchor rec = true ->
   exists y m d,
     parse_date (original_date rec) = Some (y, m, d)
     /\ 1800 <= y <= 2100 /\ 0 <= m <= 99 /\ 0 <= d <= 99)
  /\ (forall y m d,
        1800 <= y <= 2100 -> 0 <= m <= 99 -> 0 <= d <= 99 ->
        original_date rec = format_date y m d ->
        anchor_year rec = Some y
        /\ forall records asc j,
             repair_row records asc j rec
             = (set_fixed_date rec (original_date rec), 0%nat)).
Proof.
  intros Hrec.
  pose proof (records_of_fields content) as Hfields.
  rewrite Forall_lookup in Hfields.
  destruct (Hfields i rec Hrec) as (_ & _ & _ & Hparsed).
  split.
  - unfold is_anchor, anchor_year. rewrite Hparsed.
    destruct (parse_date (original_date rec)) as [[[y m] d]|] eqn:Hp; [|done].
    destruct (is_valid_year y) eqn:Hy; [|done]. intros _.
    destruct (parse_date_bounds _ _ _ _ Hp) as (_ & Hm & Hd).
    exists y, m, d. unfold is_valid_year in Hy.
    apply andb_true_iff in Hy as [?%Z.leb_le ?%Z.leb_le]. done.
  - intros y m d Hy Hm Hd Hdate.
    assert (anchor_year rec = Some y) as Hanchor.
    { unfold anchor_year. rewrite Hparsed, Hdate.
      rewrite (proj2 (format_date_parse_iff y m d)) by lia.
      unfold is_valid_year.
      destruct (Z.leb_spec 1800 y), (Z.leb_spec y 2100); cbn; first [done|lia]. }
    split; [done|]. intros records asc j. apply repair_row_anchor.
    apply is_anchor_true. by exists y.
Qed.

Lemma X14_witness :
  (is_anchor {| original_date := "1970-13-45"; parsed := Some (1970, 13, 45);
                value := "7"; fixed_date := None |} = true ->
   exists y m d,
     parse_date "1970-13-45" = Some (y, m, d)
     /\ 1800 <= y <= 2100 /\ 0 <= m <= 99 /\ 0 <= d <= 99)
  /\ (forall y m d,
        1800 <= y <= 2100 -> 0 <= m <= 99 -> 0 <= d <= 99 ->
        "1970-13-45" = format_date y m d ->
        anchor_year {| original_date := "1970-13-45";
                       parsed := Some (1970, 13, 45);
                       value := "7"; fixed_date := None |} = Some y
        /\ forall records asc j,
             repair_row records asc j
               {| original_date := "1970-13-45"; parsed := Some (1970, 13, 45);
                  value := "7"; fixed_date := None |}
             = ({| original_date := "1970-13-45"; parsed := Some (1970, 13, 45);
                   value := "7"; fixed_date := Some "1970-13-45" |}, 0%nat)).
Proof.
  apply (X14_anchor_dates (lines_text ["date,value"; "1970-13-45,7"]) 0).
  reflexivity.
Defined.
